(** * Dialogue-to-audio pipeline ([main.py]): model and properties

    The development follows the source file function by function:
    [parse_dialogue_file], [assign_voices_to_characters],
    [generate_character_audio], [create_conversation_audio] and [main].

    Python values are modelled as follows.
    - [str] is [string]; a character is a code point below 256, classified
      as Python's [str.isspace] and the [re] module's [\w], [\s] and [.]
      classify it.
    - [set] is an abstract container ([PySet]): Python fixes neither the
      hash of a string nor the iteration order of a set, so every property
      is proved for all lawful implementations.
    - [dict] is an insertion-ordered association list with unique keys.
    - Exceptions, [sys.exit] and the printed output are explicit: a run
      returns an [outcome] and the trace of its [event]s.
    - The text-to-speech service and the random generator are inputs of
      the run ([Env]). A conversation is kept as the sequence of the parts
      put together; how long it is, in frames and in milliseconds, follows
      the audio library's frame arithmetic ([Pydub]). *)

From Stdlib Require Import ZArith NArith Ascii String List Bool Lia.
From Stdlib Require Import Floats.SpecFloat.
From stdpp Require Import base list strings gmap.

Local Open Scope string_scope.

(** ** Characters *)

Module Chars.

Definition code (c : ascii) : N := N_of_ascii c.

Definition between (lo hi : N) (c : ascii) : bool :=
  ((lo <=? code c) && (code c <=? hi))%N.

(** [str.isspace], also the class [\s] of a [str] pattern. *)
Definition isspace (c : ascii) : bool :=
  between 9 13 c || between 28 32 c || between 133 133 c || between 160 160 c.

(** [str.isalnum] on code points below 256. *)
Definition isalnum (c : ascii) : bool :=
  between 48 57 c || between 65 90 c || between 97 122 c
  || between 170 170 c || between 178 179 c || between 181 181 c
  || between 185 186 c || between 188 190 c
  || between 192 214 c || between 216 246 c || between 248 255 c.

(** The class [\w]: alphanumeric or underscore. *)
Definition isword (c : ascii) : bool := isalnum c || between 95 95 c.

Definition newline : ascii := "010"%char.

(** The class [.] without [re.DOTALL]: anything but a line feed. *)
Definition isdot (c : ascii) : bool := negb (Ascii.eqb c newline).

End Chars.

(** ** Strings *)

Module Str.

Fixpoint lstrip (s : string) : string :=
  match s with
  | String c r => if Chars.isspace c then lstrip r else s
  | EmptyString => EmptyString
  end.

Fixpoint rstrip (s : string) : string :=
  match s with
  | EmptyString => EmptyString
  | String c r =>
      match rstrip r with
      | EmptyString => if Chars.isspace c then EmptyString else String c EmptyString
      | r' => String c r'
      end
  end.

(** [s.strip()] *)
Definition strip (s : string) : string := rstrip (lstrip s).

(** [s.split(sep)] for a one-character separator. *)
Fixpoint split (sep : ascii) (s : string) : list string :=
  match s with
  | EmptyString => [EmptyString]
  | String c r =>
      if Ascii.eqb c sep then EmptyString :: split sep r
      else match split sep r with
           | h :: t => String c h :: t
           | [] => [String c EmptyString]
           end
  end.

(** [sep.join(l)] *)
Fixpoint join (sep : string) (l : list string) : string :=
  match l with
  | [] => EmptyString
  | [x] => x
  | x :: r => x ++ sep ++ join sep r
  end.

(** The prefix before the last occurrence of [sep], if [sep] occurs. *)
Fixpoint before_last (sep : ascii) (s : string) : option string :=
  match s with
  | EmptyString => None
  | String c r =>
      match before_last sep r with
      | Some p => Some (String c p)
      | None => if Ascii.eqb c sep then Some EmptyString else None
      end
  end.

(** [s.rsplit(sep, 1)[0]] *)
Definition rsplit1_head (sep : ascii) (s : string) : string :=
  match before_last sep s with
  | Some p => p
  | None => s
  end.

Fixpoint all (p : ascii -> bool) (s : string) : bool :=
  match s with
  | EmptyString => true
  | String c r => p c && all p r
  end.

Fixpoint mem (x : ascii) (s : string) : bool :=
  match s with
  | EmptyString => false
  | String c r => Ascii.eqb c x || mem x r
  end.

Definition nonempty (s : string) : bool :=
  match s with EmptyString => false | String _ _ => true end.

Definition head_is (p : ascii -> bool) (s : string) : bool :=
  match s with EmptyString => false | String c _ => p c end.

Fixpoint last_is (p : ascii -> bool) (s : string) : bool :=
  match s with
  | EmptyString => false
  | String c EmptyString => p c
  | String _ r => last_is p r
  end.

End Str.

(** ** The pattern [(\w+):\s*(.+)] under [re.match]

    Greedy quantifiers with backtracking, in continuation-passing style: a
    quantifier tries the longest run first and gives characters back one at
    a time while the rest of the pattern fails. *)

Module Re.

Section Matcher.
Context {R : Type}.

(** [cls*]: the continuation receives the matched run and the rest. *)
Fixpoint star (cls : ascii -> bool) (s : string)
         (k : string -> string -> option R) : option R :=
  match s with
  | String c r =>
      if cls c then
        match star cls r (fun m rest => k (String c m) rest) with
        | Some x => Some x
        | None => k EmptyString s
        end
      else k EmptyString s
  | EmptyString => k EmptyString s
  end.

(** [cls+] *)
Definition plus (cls : ascii -> bool) (s : string)
           (k : string -> string -> option R) : option R :=
  star cls s (fun m rest => if Str.nonempty m then k m rest else None).

(** A literal character. *)
Definition lit (ch : ascii) (s : string) (k : string -> option R) : option R :=
  match s with
  | String c r => if Ascii.eqb c ch then k r else None
  | EmptyString => None
  end.
End Matcher.

(** [re.match(r"(\w+):\s*(.+)", s)], returning [match.groups()]. *)
Definition dialogue_match (s : string) : option (string * string) :=
  plus Chars.isword s (fun character s1 =>
  lit ":" s1 (fun s2 =>
  star Chars.isspace s2 (fun _ s3 =>
  plus Chars.isdot s3 (fun text _ =>
  Some (character, text))))).

End Re.

Definition nl : string := String Chars.newline EmptyString.

(** ** Python containers *)

(** [set] of strings. The iteration order is whatever the implementation
    makes of the hashes; the laws say only which elements are iterated,
    each once. *)
Class PySet (T : Type) := {
  set_new : T;
  set_add : T -> string -> T;
  set_sub : T -> T -> T;
  set_iter : T -> list string;
  set_iter_NoDup : forall s, NoDup (set_iter s);
  set_iter_new : set_iter set_new = [];
  set_iter_add : forall s x y, y ∈ set_iter (set_add s x) <-> y = x \/ y ∈ set_iter s;
  set_iter_sub : forall s t y,
    y ∈ set_iter (set_sub s t) <-> y ∈ set_iter s /\ y ∉ set_iter t
}.

(** [set(iterable)] *)
Definition set_of_list `{PySet T} (l : list string) : T := fold_left set_add l set_new.

(** Truth value of a container. *)
Definition truthy {A} (l : list A) : bool :=
  match l with [] => false | _ :: _ => true end.

(** A set whose iteration order depends on the elements alone, never on the
    order of insertion. *)
#[export] Instance gset_PySet : PySet (gset string).
Proof.
  refine {|
    set_new := (∅ : gset string);
    set_add := fun (s : gset string) x => s ∪ {[x]};
    set_sub := fun (s t : gset string) => s ∖ t;
    set_iter := fun (s : gset string) => elements s
  |}.
  - intros s. apply NoDup_elements.
  - apply elements_empty.
  - intros s x y. rewrite !elem_of_elements, elem_of_union, elem_of_singleton. tauto.
  - intros s t y. rewrite !elem_of_elements, elem_of_difference. tauto.
Defined.

(** [dict] from strings to strings, in insertion order. *)
Definition dict : Type := list (string * string).

Fixpoint dict_get (d : dict) (k : string) : option string :=
  match d with
  | [] => None
  | (k', v) :: r => if String.eqb k' k then Some v else dict_get r k
  end.

(** [d[k] = v]: an existing key keeps its place. *)
Fixpoint dict_set (d : dict) (k v : string) : dict :=
  match d with
  | [] => [(k, v)]
  | (k', v') :: r =>
      if String.eqb k' k then (k', v) :: r else (k', v') :: dict_set r k v
  end.

Definition dict_keys (d : dict) : list string := map fst d.
Definition dict_values (d : dict) : list string := map snd d.

(** [json.load] of an object, given its members in the order of the file:
    a repeated name keeps its first place and its last value. *)
Definition json_load (members : list (string * string)) : dict :=
  fold_left (fun d kv => dict_set d (fst kv) (snd kv)) members [].

(** ** Outcomes and traces *)

Inductive exn : Type :=
  | ZeroDivisionError
  | IndexError
  | KeyError (key : string)
  | ValueError
  | OverflowError
  | MemoryError.

Inductive outcome (A : Type) : Type :=
  | Return (a : A)
  | Raise (e : exn)
  | SysExit (status : Z).
Arguments Return {A} a.
Arguments Raise {A} e.
Arguments SysExit {A} status.

Definition obind {A B} (m : outcome A) (f : A -> outcome B) : outcome B :=
  match m with
  | Return a => f a
  | Raise e => Raise e
  | SysExit n => SysExit n
  end.

(** ** Audio *)

(** A part of the timeline: the decoded audio of a line, with the length
    in milliseconds the audio library reports for it, or a silence asked
    for with a duration in milliseconds. *)
Inductive clip : Type :=
  | Speech (text voice : string) (ms : Z)
  | Silence (ms : Z).

(** [AudioSegment], as the sequence of the parts put together: [+]
    appends. How long the result is, in frames and in milliseconds, is the
    matter of [Pydub] below. *)
Definition AudioSegment : Type := list clip.

(** [AudioSegment.empty()] and [AudioSegment.silent(duration=ms)] as parts
    of the sequence; [Pydub.empty] and [Pydub.silent] are their data. *)
Definition empty_segment : AudioSegment := [].
Definition silent (ms : Z) : AudioSegment := [Silence ms].

Inductive event : Type :=
  | Print (line : string)
  | Generate (text voice : string)
  | Export (path : string) (audio : AudioSegment).

(** A run: its outcome and what it did, oldest event first. *)
Definition run (A : Type) : Type := outcome A * list event.

Definition ret {A} (a : A) : run A := (Return a, []).
Definition emit (e : event) : run unit := (Return tt, [e]).
Definition print (line : string) : run unit := emit (Print line).
Definition sys_exit {A} (status : Z) : run A := (SysExit status, []).
Definition lift {A} (o : outcome A) : run A := (o, []).

Definition bind {A B} (m : run A) (f : A -> run B) : run B :=
  match fst m with
  | Return a => (fst (f a), (snd m ++ snd (f a))%list)
  | Raise e => (Raise e, snd m)
  | SysExit n => (SysExit n, snd m)
  end.

#[export] Instance run_ret : MRet run := @ret.
#[export] Instance run_bind : MBind run := fun A B f m => bind m f.

Definition is_generate (e : event) : bool :=
  match e with Generate _ _ => true | _ => false end.

(** Exit status of the process: an uncaught exception ends it with 1. *)
Definition exit_status {A} (o : outcome A) : Z :=
  match o with
  | Return _ => 0
  | Raise _ => 1
  | SysExit n => n
  end.

(** ** Floating point: binary64 *)

Module F64.

Definition prec : Z := 53.
Definition emax : Z := 1024.

(** [float(n)] for an [int]: round to nearest even, [OverflowError] beyond
    the range. *)
Definition of_int (n : Z) : outcome spec_float :=
  match binary_normalize prec emax n 0 false with
  | S754_infinity _ => Raise OverflowError
  | f => Return f
  end.

(** [int(x)]: truncation toward zero. *)
Definition to_int (x : spec_float) : outcome Z :=
  match x with
  | S754_zero _ => Return 0%Z
  | S754_finite s m e =>
      let a := match e with
               | Zneg p => Z.shiftr (Zpos m) (Zpos p)
               | _ => Z.shiftl (Zpos m) e
               end in
      Return (if s then Z.opp a else a)
  | S754_nan => Raise ValueError
  | S754_infinity _ => Raise OverflowError
  end.

Definition signbit (x : spec_float) : bool :=
  match x with
  | S754_zero s | S754_infinity s | S754_finite s _ _ => s
  | S754_nan => false
  end.

Definition is_finite (x : spec_float) : bool :=
  match x with
  | S754_zero _ | S754_finite _ _ _ => true
  | _ => false
  end.

End F64.

(** [np.random.normal(loc, scale)], where [z] is the standard normal draw
    taken from the generator: [loc + scale * z], and [ValueError] for a
    negative [scale]. *)
Definition np_random_normal (loc scale : Z) (z : spec_float) : outcome spec_float :=
  obind (F64.of_int loc) (fun l =>
  obind (F64.of_int scale) (fun s =>
  if F64.signbit s then Raise ValueError
  else Return (SFadd F64.prec F64.emax l (SFmul F64.prec F64.emax s z)))).

(** ** The program *)

(** What a run reads from outside: the input file, the decoded speaker map
    file, the provider's voice catalog, the length of the audio the provider
    returns for the [i]-th line, and the [i]-th standard normal draw. *)
Record Env : Type := {
  file_content : string;
  map_members : list (string * string);
  provider_voices : list string;
  synth_ms : nat -> string -> string -> Z;
  gauss : nat -> spec_float
}.

Record Args : Type := {
  input_file : string;
  speaker_map : option string;
  pause_mean : Z;
  pause_stdev : Z
}.

(** [if args.speaker_map:] *)
Definition speaker_map_given (args : Args) : bool :=
  match speaker_map args with
  | Some p => Str.nonempty p
  | None => false
  end.

Section Program.
Context {T : Type} `{PySet T}.

(** One iteration of the loop of [parse_dialogue_file]. *)
Definition parse_line (acc : list (string * string) * T) (line : string)
  : list (string * string) * T :=
  match Re.dialogue_match (Str.strip line) with
  | Some (character, text) =>
      ((fst acc ++ [(character, text)])%list, set_add (snd acc) character)
  | None => acc
  end.

Definition parse_dialogue_file (content : string)
  : list (string * string) * list string :=
  let lines := Str.split Chars.newline content in
  let '(dialogue, characters) := fold_left parse_line lines ([], set_new) in
  (dialogue, set_iter characters).

(** The loop of [assign_voices_to_characters], from index [i]. *)
Fixpoint assign_from (available_voices : list string) (i : nat)
         (characters : list string) (voice_map : dict) : outcome dict :=
  match characters with
  | [] => Return voice_map
  | character :: rest =>
      match length available_voices with
      | O => Raise ZeroDivisionError
      | S _ as n =>
          match nth_error available_voices (i mod n) with
          | Some voice =>
              assign_from available_voices (S i) rest
                          (dict_set voice_map character voice)
          | None => Raise IndexError
          end
      end
  end.

Definition assign_voices_to_characters (characters available_voices : list string)
  : outcome dict :=
  assign_from available_voices 0 characters [].

(** [generate_character_audio], with the decoding of the returned stream:
    the lookup comes first, then the request. *)
Definition generate_character_audio (env : Env) (i : nat)
           (character text : string) (voice_map : dict) : run AudioSegment :=
  match dict_get voice_map character with
  | None => lift (Raise (KeyError character))
  | Some voice =>
      emit (Generate text voice);;
      mret [Speech text voice (synth_ms env i text voice)]
  end.

(** [max(0, int(np.random.normal(pause_mean, pause_stdev)))] *)
Definition pause_duration (pause_mean pause_stdev : Z) (z : spec_float) : outcome Z :=
  obind (np_random_normal pause_mean pause_stdev z) (fun x =>
  obind (F64.to_int x) (fun n =>
  Return (Z.max 0 n))).

(** The loop of [create_conversation_audio], from line [i]. *)
Fixpoint conversation_from (env : Env) (voice_map : dict)
         (pause_mean pause_stdev : Z) (i : nat)
         (dialogue : list (string * string)) (conversation : AudioSegment)
  : run AudioSegment :=
  match dialogue with
  | [] => mret conversation
  | (character, text) :: rest =>
      audio_segment ← generate_character_audio env i character text voice_map;
      pause ← lift (pause_duration pause_mean pause_stdev (gauss env i));
      conversation_from env voice_map pause_mean pause_stdev (S i) rest
        (conversation ++ (audio_segment ++ silent pause))%list
  end.

Definition create_conversation_audio (env : Env) (dialogue : list (string * string))
           (voice_map : dict) (pause_mean pause_stdev : Z) : run AudioSegment :=
  conversation_from env voice_map pause_mean pause_stdev 0 dialogue empty_segment.

(** The two branches of [main] that build [voice_map]. *)
Definition resolve_voice_map (env : Env) (args : Args) (characters : list string)
  : run dict :=
  let available_voices := provider_voices env in
  if speaker_map_given args then
    let custom_voice_map := json_load (map_members env) in
    let invalid_voices : T :=
      set_sub (set_of_list (dict_values custom_voice_map))
              (set_of_list available_voices) in
    if truthy (set_iter invalid_voices) then
      print ("Warning: The following voices in the custom map are not available: "
             ++ Str.join ", " (set_iter invalid_voices));;
      print ("Available voices: " ++ Str.join ", " available_voices);;
      sys_exit 1
    else mret custom_voice_map
  else lift (assign_voices_to_characters characters available_voices).

Definition output_name (input_file : string) : string :=
  Str.rsplit1_head "." input_file ++ "_output.wav".

(** The rest of [main] once [voice_map] is known: print the assignment,
    assemble, export. *)
Definition synthesize_and_export (env : Env) (args : Args)
           (dialogue : list (string * string)) (voice_map : dict) : run unit :=
  print "Voice assignments:";;
  foldr (fun kv k => print (fst kv ++ ": " ++ snd kv);; k) (mret tt) voice_map;;
  conversation ← create_conversation_audio env dialogue voice_map
                   (pause_mean args) (pause_stdev args);
  let output_file := output_name (input_file args) in
  emit (Export output_file conversation);;
  print (nl ++ "Conversation audio generated and saved as '" ++ output_file ++ "'").

Definition main (env : Env) (args : Args) : run unit :=
  let '(dialogue, characters) := parse_dialogue_file (file_content env) in
  voice_map ← resolve_voice_map env args characters;
  synthesize_and_export env args dialogue voice_map.

End Program.

(** ** Notions used by the statements *)

(** The distinct elements of a list, each at its first occurrence. *)
Fixpoint first_seen (l : list string) : list string :=
  match l with
  | [] => []
  | x :: r => x :: filter (fun y => negb (String.eqb y x)) (first_seen r)
  end.

(** The dialogue of a file: the matching lines, in order. *)
Definition dialogue_of (content : string) : list (string * string) :=
  omap (fun line => Re.dialogue_match (Str.strip line))
       (Str.split Chars.newline content).

Definition generated (t : list event) : list event := filter (fun e => is_generate e = true) t.

Definition printed (t : list event) : list string :=
  omap (fun e => match e with Print l => Some l | _ => None end) t.

(** The clips of a timeline made of (speech, pause) pairs. *)
Definition interleave (lines : list (clip * Z)) : AudioSegment :=
  flat_map (fun sp => [fst sp; Silence (snd sp)]) lines.

(** What the loop of [create_conversation_audio] has appended when it
    returns: for the line at offset [j], its speech in the speaker's voice
    and the pause computed from draw [i + j]. *)
Definition assembled (env : Env) (voice_map : dict) (pause_mean pause_stdev : Z)
           (i : nat) (dialogue : list (string * string))
           (lines : list (clip * Z)) : Prop :=
  length lines = length dialogue
  /\ forall j c text, dialogue !! j = Some (c, text) ->
       exists voice p,
         dict_get voice_map c = Some voice
         /\ pause_duration pause_mean pause_stdev (gauss env (i + j)) = Return p
         /\ lines !! j = Some (Speech text voice (synth_ms env (i + j) text voice), p).

(** A two-line dialogue whose speeches last 1000 ms and 1500 ms. *)
Definition two_lines : list (string * string) := [("Ann", "Hello."); ("Bob", "Hi, Ann.")].

Definition two_lines_env : Env := {|
  file_content := "Ann: Hello." ++ nl ++ "Bob: Hi, Ann.";
  map_members := [];
  provider_voices := ["v0"; "v1"];
  synth_ms := fun i _ _ => match i with O => 1000%Z | _ => 1500%Z end;
  gauss := fun i => S754_finite (Nat.even i) 5404319552844595 (-52)
|}.

(** A one-line script with a given speaker map file and voice catalog, and
    the command lines with and without [--map]. *)
Definition one_line_env (members : list (string * string)) (voices : list string) : Env := {|
  file_content := "Ann: Hello.";
  map_members := members;
  provider_voices := voices;
  synth_ms := fun _ _ _ => 1000%Z;
  gauss := fun _ => S754_finite false 5404319552844595 (-52)
|}.

Definition custom_args : Args := {|
  input_file := "script.txt";
  speaker_map := Some "map.json";
  pause_mean := 500;
  pause_stdev := 100
|}.

Definition auto_args : Args := {|
  input_file := "script.txt";
  speaker_map := None;
  pause_mean := 500;
  pause_stdev := 100
|}.

(** ** Notions used by the further properties *)

(** A dialogue line printed the way the input file writes it. *)
Definition render_line (ct : string * string) : string := fst ct ++ ": " ++ snd ct.

(** A dialogue written out as a file, one line per dialogue line. *)
Definition render (dialogue : list (string * string)) : string :=
  Str.join nl (map render_line dialogue).

(** A dialogue line as the parser produces them: a speaker made of word
    characters, and a text on one line with no blank at either end. *)
Definition wf_line (ct : string * string) : bool :=
  Str.all Chars.isword (fst ct) && Str.nonempty (fst ct)
  && Str.all Chars.isdot (snd ct)
  && negb (Str.head_is Chars.isspace (snd ct))
  && Str.last_is (fun c => negb (Chars.isspace c)) (snd ct).

(** The synthesis requests of a dialogue under a voice map, one for each
    line whose speaker has a voice. *)
Definition requests (voice_map : dict) (dialogue : list (string * string)) : list event :=
  omap (fun ct => option_map (Generate (snd ct)) (dict_get voice_map (fst ct))) dialogue.

(** The files a run has written, with their audio. *)
Definition exported (t : list event) : list (string * AudioSegment) :=
  omap (fun e => match e with Export path audio => Some (path, audio) | _ => None end) t.

(** The lines printed under "Voice assignments:". *)
Definition assignment_lines (voice_map : dict) : list event :=
  map (fun kv => Print (fst kv ++ ": " ++ snd kv)) voice_map.

(** ** Temporary files

    [save_temp_audio] and the loop body of [create_conversation_audio] with
    the files it creates and removes. The temporary directory is a map from
    file names to contents; [NamedTemporaryFile] picks a name that is not in
    use ([TempNames]); the provider returns the audio of the [i]-th request
    as a stream of chunks, and decoding may fail. *)

Class TempNames := {
  mktemp : gset string -> string;
  mktemp_fresh : forall names, mktemp names ∉ names
}.

#[export] Instance fresh_TempNames : TempNames.
Proof.
  refine {| mktemp := fun names : gset string => fresh names |}.
  intros names. apply is_fresh.
Defined.

Record Media : Type := {
  audio_stream : nat -> string -> string -> list string;
  decode_mp3 : string -> option Z;
  normal_draw : nat -> spec_float
}.

Inductive failure : Type :=
  | PyExn (e : exn)
  | Exit (status : Z)
  | FileNotFoundError
  | CouldntDecodeError.

(** All chunks of a stream, in order. *)
Fixpoint cat (chunks : list string) : string :=
  match chunks with
  | [] => ""
  | chunk :: rest => chunk ++ cat rest
  end.

(** [save_temp_audio]: a new empty file, every chunk written at its end,
    the name returned. *)
Definition save_temp_audio `{TempNames} (audio : list string) (fs : gmap string string)
  : string * gmap string string :=
  let name := mktemp (dom fs) in
  (name,
   fold_left (fun fs chunk => alter (fun data => data ++ chunk) name fs)
             audio (<[name := ""]> fs)).

(** [AudioSegment.from_mp3(path)]: the length of the decoded file. *)
Definition from_mp3 (m : Media) (fs : gmap string string) (path : string)
  : Z + failure :=
  match fs !! path with
  | None => inr FileNotFoundError
  | Some data =>
      match decode_mp3 m data with
      | Some ms => inl ms
      | None => inr CouldntDecodeError
      end
  end.

(** [os.unlink(path)] *)
Definition os_unlink (fs : gmap string string) (path : string)
  : gmap string string + failure :=
  match fs !! path with
  | None => inr FileNotFoundError
  | Some _ => inl (delete path fs)
  end.

Definition failure_of {A} (o : outcome A) : A + failure :=
  match o with
  | Return a => inl a
  | Raise e => inr (PyExn e)
  | SysExit n => inr (Exit n)
  end.

(** The loop of [create_conversation_audio] from line [i], with the
    temporary directory: what it returns or how it fails, its events, and
    the directory it leaves. *)
Fixpoint conversation_files `{TempNames} (m : Media) (voice_map : dict)
         (pause_mean pause_stdev : Z) (i : nat)
         (dialogue : list (string * string)) (conversation : AudioSegment)
         (fs : gmap string string)
  : (AudioSegment + failure) * list event * gmap string string :=
  match dialogue with
  | [] => (inl conversation, [], fs)
  | (character, text) :: rest =>
      match dict_get voice_map character with
      | None => (inr (PyExn (KeyError character)), [], fs)
      | Some voice =>
          let audio := audio_stream m i text voice in
          let '(temp_file, fs1) := save_temp_audio audio fs in
          match from_mp3 m fs1 temp_file with
          | inr f => (inr f, [Generate text voice], fs1)
          | inl ms =>
              match os_unlink fs1 temp_file with
              | inr f => (inr f, [Generate text voice], fs1)
              | inl fs2 =>
                  match failure_of (pause_duration pause_mean pause_stdev
                                      (normal_draw m i)) with
                  | inr f => (inr f, [Generate text voice], fs2)
                  | inl pause =>
                      let '(o, t, fs') :=
                        conversation_files m voice_map pause_mean pause_stdev (S i) rest
                          (conversation ++ ([Speech text voice ms] ++ silent pause))%list
                          fs2 in
                      (o, Generate text voice :: t, fs')
                  end
              end
          end
      end
  end.

(** The inputs of the loop of [create_conversation_audio] that a [Media]
    determines: the length of the decoded audio of each request, and the
    draws. *)
Definition media_env (m : Media) : Env := {|
  file_content := "";
  map_members := [];
  provider_voices := [];
  synth_ms := fun i text voice =>
    default 0%Z (decode_mp3 m (cat (audio_stream m i text voice)));
  gauss := normal_draw m
|}.

(** A provider whose first answer decodes (1000 ms) and whose later answers
    do not. *)
Definition flaky_media : Media := {|
  audio_stream := fun i _ _ => match i with O => ["ID3"; "...."] | _ => ["<html>"; "502"] end;
  decode_mp3 := fun data => if String.prefix "ID3" data then Some 1000%Z else None;
  normal_draw := fun _ => S754_finite false 5404319552844595 (-52)
|}.

(** ** Reading the script *)

Definition carriage_return : ascii := "013"%char.

(** What [file.read()] returns for a file opened with [open(path, "r")]
    and holding [raw]: every line ending, a carriage return alone or
    followed by a line feed included, is turned into a line feed. *)
Fixpoint universal_newlines (raw : string) : string :=
  match raw with
  | EmptyString => EmptyString
  | String c rest =>
      if Ascii.eqb c carriage_return then
        match rest with
        | String c' rest' =>
            if Ascii.eqb c' Chars.newline
            then String Chars.newline (universal_newlines rest')
            else String Chars.newline (universal_newlines rest)
        | EmptyString => String Chars.newline EmptyString
        end
      else String c (universal_newlines rest)
  end.

(** ** The audio library, in frames

    An audio segment as the library holds it: its frame rate, its layout
    and the number of frames of its sample data. Putting two segments
    together first brings both to the larger frame rate, channel count and
    sample width; a change of frame rate goes through [audioop.ratecv],
    which does not keep the length exactly. A bytes object larger than the
    platform can allocate cannot be built. *)

Module Pydub.

Record segment : Type := {
  frame_rate : Z;
  channels : Z;
  sample_width : Z;
  frame_count : Z
}.

(** The size of the sample data in bytes. *)
Definition data_bytes (s : segment) : Z :=
  (frame_count s * (channels s * sample_width s))%Z.

(** A segment with new sample data. *)
Definition build (max_alloc : Z) (s : segment) : outcome segment :=
  if (data_bytes s <=? max_alloc)%Z then Return s else Raise MemoryError.

(** [AudioSegment.empty()] *)
Definition empty : segment :=
  {| frame_rate := 1; channels := 1; sample_width := 1; frame_count := 0 |}.

(** [int(frame_rate * (duration / 1000.0))] at the default frame rate of
    [AudioSegment.silent], 11025. *)
Definition silent_frames (duration : Z) : outcome Z :=
  obind (F64.of_int duration) (fun d =>
  obind (F64.of_int 1000) (fun thousand =>
  obind (F64.of_int 11025) (fun rate =>
  F64.to_int (SFmul F64.prec F64.emax rate (SFdiv F64.prec F64.emax d thousand))))).

(** The silence of [frames] frames: mono, 16 bit, 11025 Hz. *)
Definition silence (frames : Z) : segment :=
  {| frame_rate := 11025; channels := 1; sample_width := 2;
     frame_count := Z.max 0 frames |}.

(** [AudioSegment.silent(duration=duration)]: the data is
    [b"\0\0" * frames]. *)
Definition silent (max_alloc : Z) (duration : Z) : outcome segment :=
  obind (silent_frames duration) (fun frames =>
  if (2 ^ 63 <=? frames)%Z then Raise OverflowError
  else build max_alloc (silence frames)).

(** The number of frames [audioop.ratecv] returns for [n] frames, without
    a previous state. *)
Definition ratecv_frames (n inrate outrate : Z) : Z :=
  if (n <=? 0)%Z then 0%Z else ((n - 1) * outrate / inrate + 1)%Z.

(** The number of frames of a segment once at frame rate [rate]. *)
Definition frames_at (rate : Z) (s : segment) : Z :=
  if (rate =? frame_rate s)%Z then frame_count s
  else if (frame_count s =? 0)%Z then 0%Z
       else ratecv_frames (frame_count s) (frame_rate s) rate.

Definition set_channels (max_alloc : Z) (n : Z) (s : segment) : outcome segment :=
  if (n =? channels s)%Z then Return s
  else if (n =? 1)%Z || (channels s =? 1)%Z then
    build max_alloc {| frame_rate := frame_rate s; channels := n;
                       sample_width := sample_width s; frame_count := frame_count s |}
  else Raise ValueError.

Definition set_frame_rate (max_alloc : Z) (rate : Z) (s : segment) : outcome segment :=
  if (rate =? frame_rate s)%Z then Return s
  else build max_alloc {| frame_rate := rate; channels := channels s;
                          sample_width := sample_width s;
                          frame_count := frames_at rate s |}.

Definition set_sample_width (max_alloc : Z) (width : Z) (s : segment) : outcome segment :=
  if (width =? sample_width s)%Z then Return s
  else build max_alloc {| frame_rate := frame_rate s; channels := channels s;
                          sample_width := width; frame_count := frame_count s |}.

(** One segment of [AudioSegment._sync]. *)
Definition convert (max_alloc : Z) (n rate width : Z) (s : segment) : outcome segment :=
  obind (set_channels max_alloc n s) (fun s1 =>
  obind (set_frame_rate max_alloc rate s1) (fun s2 =>
  set_sample_width max_alloc width s2)).

(** [a + b], that is [a.append(b, crossfade=0)]. *)
Definition append (max_alloc : Z) (a b : segment) : outcome segment :=
  let n := Z.max (channels a) (channels b) in
  let rate := Z.max (frame_rate a) (frame_rate b) in
  let width := Z.max (sample_width a) (sample_width b) in
  obind (convert max_alloc n rate width a) (fun a' =>
  obind (convert max_alloc n rate width b) (fun b' =>
  build max_alloc {| frame_rate := frame_rate a'; channels := channels a';
                     sample_width := sample_width a';
                     frame_count := frame_count a' + frame_count b' |})).

(** [round(x)] for a float: to the nearest integer, ties to the even one. *)
Definition round_float (x : spec_float) : outcome Z :=
  match x with
  | S754_zero _ => Return 0%Z
  | S754_finite s m e =>
      let a :=
        match e with
        | Zneg k =>
            let q := Z.shiftr (Zpos m) (Zpos k) in
            let r := (Zpos m - Z.shiftl q (Zpos k))%Z in
            let half := Z.shiftl 1 (Zpos k - 1) in
            match (r ?= half)%Z with
            | Lt => q
            | Gt => (q + 1)%Z
            | Eq => if Z.even q then q else (q + 1)%Z
            end
        | _ => Z.shiftl (Zpos m) e
        end in
      Return (if s then Z.opp a else a)
  | S754_nan => Raise ValueError
  | S754_infinity _ => Raise OverflowError
  end.

(** [len(s)]: [round(1000 * (s.frame_count() / s.frame_rate))] *)
Definition len (s : segment) : outcome Z :=
  if (frame_rate s =? 0)%Z then Raise ZeroDivisionError
  else
    obind (F64.of_int (frame_count s)) (fun frames =>
    obind (F64.of_int (frame_rate s)) (fun rate =>
    obind (F64.of_int 1000) (fun thousand =>
    round_float (SFmul F64.prec F64.emax thousand
                   (SFdiv F64.prec F64.emax frames rate))))).

End Pydub.

(** What the audio of a run is made of: the segment decoded for the [i]-th
    request, and the largest bytes object the platform allocates. *)
Record Platform : Type := {
  decoded : nat -> string -> string -> Pydub.segment;
  max_alloc : Z
}.

(** The loop of [create_conversation_audio] from line [i], in frames. *)
Fixpoint conversation_frames (pf : Platform) (env : Env) (voice_map : dict)
         (pause_mean pause_stdev : Z) (i : nat)
         (dialogue : list (string * string)) (conversation : Pydub.segment)
  : outcome Pydub.segment :=
  match dialogue with
  | [] => Return conversation
  | (character, text) :: rest =>
      match dict_get voice_map character with
      | None => Raise (KeyError character)
      | Some voice =>
          let audio_segment := decoded pf i text voice in
          obind (pause_duration pause_mean pause_stdev (gauss env i)) (fun pause =>
          obind (Pydub.silent (max_alloc pf) pause) (fun silence =>
          obind (Pydub.append (max_alloc pf) audio_segment silence) (fun part =>
          obind (Pydub.append (max_alloc pf) conversation part) (fun conversation' =>
          conversation_frames pf env voice_map pause_mean pause_stdev (S i) rest
                              conversation'))))
      end
  end.

Definition create_conversation_frames (pf : Platform) (env : Env)
           (dialogue : list (string * string)) (voice_map : dict)
           (pause_mean pause_stdev : Z) : outcome Pydub.segment :=
  conversation_frames pf env voice_map pause_mean pause_stdev 0 dialogue Pydub.empty.

(** The frames of each line once in the timeline: those of its segment and
    those of its silence at frame rate [rate]. *)
Definition framed (pf : Platform) (env : Env) (voice_map : dict)
           (pause_mean pause_stdev : Z) (rate : Z) (i : nat)
           (dialogue : list (string * string)) (parts : list (Z * Z)) : Prop :=
  length parts = length dialogue
  /\ forall j c text, dialogue !! j = Some (c, text) ->
       exists voice pause frames,
         dict_get voice_map c = Some voice
         /\ pause_duration pause_mean pause_stdev (gauss env (i + j)) = Return pause
         /\ Pydub.silent_frames pause = Return frames
         /\ parts !! j
            = Some (Pydub.frame_count (decoded pf (i + j) text voice),
                    Pydub.frames_at rate (Pydub.silence frames)).

Definition frames_total (parts : list (Z * Z)) : Z :=
  foldr (fun ab acc => (fst ab + snd ab + acc)%Z) 0%Z parts.

(** Segments of one second and of a second and a half, then of one second
    each, in mono 16 bit at 44100 Hz. *)
Definition cd_platform : Platform := {|
  decoded := fun i _ _ =>
    {| Pydub.frame_rate := 44100; Pydub.channels := 1; Pydub.sample_width := 2;
       Pydub.frame_count := match i with 1 => 66150 | _ => 44100 end |};
  max_alloc := 2 ^ 31
|}.

Definition eight_lines : list (string * string) :=
  [("Ann", "one"); ("Ann", "two"); ("Ann", "three"); ("Ann", "four");
   ("Ann", "five"); ("Ann", "six"); ("Ann", "seven"); ("Ann", "eight")].

Definition second_platform : Platform := {|
  decoded := fun _ _ _ =>
    {| Pydub.frame_rate := 44100; Pydub.channels := 1; Pydub.sample_width := 2;
       Pydub.frame_count := 44100 |};
  max_alloc := 2 ^ 31
|}.

(** * Properties *)

(** ** The model on small inputs *)

Example dialogue_match_plain :
  Re.dialogue_match "Bob: hello there" = Some ("Bob", "hello there").
Proof. reflexivity. Qed.

Example dialogue_match_no_blank : Re.dialogue_match "Bob:hello" = Some ("Bob", "hello").
Proof. reflexivity. Qed.

Example dialogue_match_second_colon :
  Re.dialogue_match "Bob: note: later" = Some ("Bob", "note: later").
Proof. reflexivity. Qed.

Example split_keeps_empty_lines :
  Str.split Chars.newline ("a" ++ nl ++ nl ++ "b" ++ nl) = ["a"; ""; "b"; ""].
Proof. reflexivity. Qed.

Example strip_both_ends : Str.strip "  Bob: hi  " = "Bob: hi".
Proof. reflexivity. Qed.

Example join_voices : Str.join ", " ["v0"; "v1"; "v2"] = "v0, v1, v2".
Proof. reflexivity. Qed.

Example json_load_repeated_name :
  json_load [("Ann", "v0"); ("Bob", "v1"); ("Ann", "v2")] = [("Ann", "v2"); ("Bob", "v1")].
Proof. reflexivity. Qed.

(** 500 + 100 * (-2.5) = 250 *)
Example pause_sample :
  pause_duration 500 100 (S754_finite true 5629499534213120 (-51)) = Return 250%Z.
Proof. vm_compute. reflexivity. Qed.

(** 500 + 100 * (-6) = -100, clamped to 0 *)
Example pause_clamped :
  pause_duration 500 100 (S754_finite true 6755399441055744 (-50)) = Return 0%Z.
Proof. vm_compute. reflexivity. Qed.

(** 0 + 1 * (-0.75): [int] truncates toward zero *)
Example pause_truncated :
  pause_duration 0 1 (S754_finite true 6755399441055744 (-53)) = Return 0%Z.
Proof. vm_compute. reflexivity. Qed.

Example pause_negative_deviation :
  pause_duration 500 (-1) (S754_zero false) = Raise ValueError.
Proof. vm_compute. reflexivity. Qed.

Example main_two_lines :
  main (T:=gset string) two_lines_env
       {| input_file := "a.b.txt"; speaker_map := None;
          pause_mean := 200; pause_stdev := 0 |}
  = (Return tt,
     [Print "Voice assignments:"; Print "Ann: v0"; Print "Bob: v1";
      Generate "Hello." "v0"; Generate "Hi, Ann." "v1";
      Export "a.b_output.wav"
        [Speech "Hello." "v0" 1000; Silence 200; Speech "Hi, Ann." "v1" 1500; Silence 200];
      Print (nl ++ "Conversation audio generated and saved as 'a.b_output.wav'")]).
Proof. vm_compute. reflexivity. Qed.

(** ** Strings *)

Lemma app_cons (c : ascii) (s t : string) : String c s ++ t = String c (s ++ t).
Proof. reflexivity. Qed.

Lemma app_empty_l (t : string) : "" ++ t = t.
Proof. reflexivity. Qed.

Lemma app_empty_r (s : string) : s ++ "" = s.
Proof. induction s as [|c s IH]; [reflexivity|]. rewrite app_cons, IH. reflexivity. Qed.

Lemma app_assoc_str (s t u : string) : (s ++ t) ++ u = s ++ t ++ u.
Proof.
  induction s as [|c s IH]; [reflexivity|].
  rewrite !app_cons, IH. reflexivity.
Qed.

Ltac norm_app := rewrite ?app_assoc_str, ?app_cons, ?app_empty_l.

Lemma all_app (p : ascii -> bool) (s t : string) :
  Str.all p (s ++ t) = Str.all p s && Str.all p t.
Proof.
  induction s as [|c s IH]; [reflexivity|].
  rewrite app_cons. simpl. rewrite IH. apply andb_assoc.
Qed.

Lemma mem_false_all (x : ascii) (s : string) :
  Str.mem x s = false <-> Str.all (fun c => negb (Ascii.eqb c x)) s = true.
Proof.
  induction s as [|c s IH]; simpl; [tauto|].
  rewrite orb_false_iff, andb_true_iff, negb_true_iff, IH. tauto.
Qed.

Lemma all_impl (p q : ascii -> bool) (s : string) :
  (forall c, p c = true -> q c = true) -> Str.all p s = true -> Str.all q s = true.
Proof.
  intros Hpq. induction s as [|c s IH]; simpl; [trivial|].
  rewrite !andb_true_iff. intros [Hc Hs]. auto.
Qed.

(** Two decompositions around the first occurrence of a character agree. *)
Lemma split_at_first (x : ascii) (p q r r' : string) :
  Str.mem x p = false -> Str.mem x q = false ->
  p ++ String x r = q ++ String x r' -> p = q /\ r = r'.
Proof.
  revert q. induction p as [|c p IH]; intros [|d q]; simpl; norm_app.
  - intros _ _ E. injection E as ->. auto.
  - rewrite orb_false_iff. intros _ [Hd _] E. injection E as E _.
    subst d. rewrite Ascii.eqb_refl in Hd. discriminate.
  - rewrite orb_false_iff. intros [Hc _] _ E. injection E as E _.
    subst c. rewrite Ascii.eqb_refl in Hc. discriminate.
  - rewrite !orb_false_iff. intros [_ Hp] [_ Hq] E. injection E as -> E.
    destruct (IH q Hp Hq E) as [-> ->]. auto.
Qed.

(** No piece of a split contains the separator. *)
Lemma split_no_sep (sep : ascii) (s line : string) :
  line ∈ Str.split sep s ->
  Str.all (fun c => negb (Ascii.eqb c sep)) line = true.
Proof.
  revert line. induction s as [|c s IH]; intros line; simpl.
  - intros Hin. apply elem_of_cons in Hin as [->|Hin]; [reflexivity|].
    apply elem_of_nil in Hin as [].
  - destruct (Ascii.eqb c sep) eqn:Hc.
    + intros Hin. apply elem_of_cons in Hin as [->|Hin]; [reflexivity|auto].
    + destruct (Str.split sep s) as [|h t] eqn:Hs.
      * intros Hin. apply elem_of_cons in Hin as [->|Hin].
        -- simpl. rewrite Hc. reflexivity.
        -- apply elem_of_nil in Hin as [].
      * intros Hin. apply elem_of_cons in Hin as [->|Hin].
        -- simpl. rewrite Hc. simpl. apply IH. left.
        -- apply IH. right. exact Hin.
Qed.

Lemma lstrip_spaces (lead s : string) :
  Str.all Chars.isspace lead = true -> Str.lstrip (lead ++ s) = Str.lstrip s.
Proof.
  induction lead as [|c lead IH]; [reflexivity|].
  intros Hall. simpl in Hall. apply andb_true_iff in Hall as [Hc Hl].
  rewrite app_cons. simpl. rewrite Hc. auto.
Qed.

Lemma lstrip_id (s : string) : Str.head_is Chars.isspace s = false -> Str.lstrip s = s.
Proof. destruct s as [|c s]; simpl; [reflexivity|]. intros ->. reflexivity. Qed.

Lemma rstrip_spaces (trail : string) :
  Str.all Chars.isspace trail = true -> Str.rstrip trail = "".
Proof.
  induction trail as [|c trail IH]; [reflexivity|].
  simpl. rewrite andb_true_iff. intros [Hc Ht]. rewrite (IH Ht), Hc. reflexivity.
Qed.

Lemma rstrip_body (body trail : string) :
  Str.last_is (fun c => negb (Chars.isspace c)) body = true ->
  Str.all Chars.isspace trail = true ->
  Str.rstrip (body ++ trail) = body.
Proof.
  intros Hb Ht. induction body as [|c body IH]; [discriminate|].
  rewrite app_cons. destruct body as [|d body].
  - simpl in Hb. rewrite app_empty_l. simpl. rewrite (rstrip_spaces _ Ht).
    apply negb_true_iff in Hb. rewrite Hb. reflexivity.
  - change (Str.rstrip (String c (String d body ++ trail)))
      with (match Str.rstrip (String d body ++ trail) with
            | "" => if Chars.isspace c then "" else String c ""
            | r' => String c r'
            end).
    rewrite IH; [reflexivity|exact Hb].
Qed.

Lemma last_is_app (p : ascii -> bool) (s t : string) :
  Str.last_is p t = true -> Str.last_is p (s ++ t) = true.
Proof.
  intros Ht. induction s as [|c s IH]; [exact Ht|].
  rewrite app_cons. destruct (s ++ t) as [|d u] eqn:E; [discriminate|exact IH].
Qed.

(** Stripping a line that is a body between two runs of whitespace. *)
Lemma strip_body (lead body trail : string) :
  Str.all Chars.isspace lead = true ->
  Str.all Chars.isspace trail = true ->
  Str.head_is Chars.isspace body = false ->
  Str.last_is (fun c => negb (Chars.isspace c)) body = true ->
  Str.strip (lead ++ body ++ trail) = body.
Proof.
  intros Hl Ht Hh Hb. unfold Str.strip.
  rewrite lstrip_spaces by exact Hl.
  rewrite lstrip_id.
  - apply rstrip_body; assumption.
  - destruct body as [|c body]; [discriminate|]. rewrite app_cons. exact Hh.
Qed.

(** ** The matcher *)

Section StarLemmas.
Context {R : Type}.
Implicit Types (k : string -> string -> option R).

(** Whatever [star] returns, the continuation returned it on some split
    of the input whose first part is in the class. *)
Lemma star_sound cls s k r :
  Re.star cls s k = Some r ->
  exists m rest, s = m ++ rest /\ Str.all cls m = true /\ k m rest = Some r.
Proof.
  revert k. induction s as [|c s IH]; intros k; simpl.
  - intros Hk. exists "", "". auto.
  - destruct (cls c) eqn:Hc.
    + destruct (Re.star cls s (fun m rest => k (String c m) rest)) as [x|] eqn:E.
      * intros [= ->]. apply IH in E as (m & rest & -> & Hm & Hk).
        exists (String c m), rest. simpl. rewrite Hc, Hm. auto.
      * intros Hk. exists "", (String c s). auto.
    + intros Hk. exists "", (String c s). auto.
Qed.

(** The longest run is tried first. *)
Lemma star_longest cls m rest k r :
  Str.all cls m = true -> Str.head_is cls rest = false ->
  k m rest = Some r -> Re.star cls (m ++ rest) k = Some r.
Proof.
  revert k. induction m as [|c m IH]; intros k Hm Hrest Hk.
  - rewrite app_empty_l. destruct rest as [|d rest]; simpl; [exact Hk|].
    simpl in Hrest. rewrite Hrest. exact Hk.
  - simpl in Hm. apply andb_true_iff in Hm as [Hc Hm].
    rewrite app_cons. simpl. rewrite Hc.
    rewrite (IH (fun m0 rest0 => k (String c m0) rest0) Hm Hrest Hk).
    reflexivity.
Qed.

Lemma plus_sound cls s k r :
  Re.plus cls s k = Some r ->
  exists m rest, s = m ++ rest /\ Str.all cls m = true
                 /\ Str.nonempty m = true /\ k m rest = Some r.
Proof.
  unfold Re.plus. intros E. apply star_sound in E as (m & rest & -> & Hm & Hk).
  exists m, rest. destruct (Str.nonempty m); [auto|discriminate].
Qed.

Lemma plus_longest cls m rest k r :
  Str.all cls m = true -> Str.nonempty m = true -> Str.head_is cls rest = false ->
  k m rest = Some r -> Re.plus cls (m ++ rest) k = Some r.
Proof.
  intros Hm Hne Hrest Hk. unfold Re.plus.
  apply star_longest; [assumption..|]. rewrite Hne. exact Hk.
Qed.
End StarLemmas.

Lemma isword_not_colon (c : ascii) : Chars.isword c = true -> Ascii.eqb c ":" = false.
Proof.
  destruct c as [[] [] [] [] [] [] [] []]; vm_compute; congruence.
Qed.

Lemma isword_not_space (c : ascii) : Chars.isword c = true -> Chars.isspace c = false.
Proof.
  destruct c as [[] [] [] [] [] [] [] []]; vm_compute; congruence.
Qed.

(** A match decomposes the string as the pattern reads. *)
Lemma dialogue_match_sound (s character text : string) :
  Re.dialogue_match s = Some (character, text) ->
  exists ws tail,
    s = character ++ ":" ++ ws ++ text ++ tail
    /\ Str.all Chars.isword character = true /\ Str.nonempty character = true
    /\ Str.all Chars.isspace ws = true
    /\ Str.all Chars.isdot text = true /\ Str.nonempty text = true.
Proof.
  unfold Re.dialogue_match. intros E.
  apply plus_sound in E as (m & s1 & -> & Hm & Hne & E).
  destruct s1 as [|c s2]; [discriminate|]. simpl in E.
  destruct (Ascii.eqb_spec c ":") as [->|]; [|discriminate].
  apply star_sound in E as (ws & s3 & -> & Hws & E).
  apply plus_sound in E as (t & tail & -> & Ht & Htne & [= <- <-]).
  exists ws, tail. norm_app. auto 10.
Qed.

(** The first, longest attempt succeeds on a string of the pattern's shape. *)
Lemma dialogue_match_shape (character ws text : string) :
  Str.all Chars.isword character = true -> Str.nonempty character = true ->
  Str.all Chars.isspace ws = true ->
  Str.all Chars.isdot text = true -> Str.nonempty text = true ->
  Str.head_is Chars.isspace text = false ->
  Re.dialogue_match (character ++ ":" ++ ws ++ text) = Some (character, text).
Proof.
  intros Hc Hcne Hws Ht Htne Hhead. unfold Re.dialogue_match.
  apply plus_longest; [assumption..|reflexivity|].
  norm_app. simpl.
  apply star_longest; [assumption..|].
  rewrite <- (app_empty_r text) at 1.
  apply plus_longest; [assumption..|reflexivity|reflexivity].
Qed.

(** ** Sets and dictionaries *)

Section SetLemmas.
Context {T : Type} `{PySet T}.

Lemma set_of_list_from (l : list string) (s : T) (x : string) :
  x ∈ set_iter (fold_left set_add l s) <-> x ∈ l \/ x ∈ set_iter s.
Proof.
  revert s. induction l as [|y l IH]; intros s; simpl.
  - rewrite elem_of_nil. tauto.
  - rewrite IH, set_iter_add, elem_of_cons. tauto.
Qed.

Lemma elem_of_set_of_list (l : list string) (x : string) :
  x ∈ set_iter (set_of_list (T:=T) l) <-> x ∈ l.
Proof.
  unfold set_of_list. rewrite set_of_list_from, set_iter_new, elem_of_nil. tauto.
Qed.
End SetLemmas.

Lemma dict_get_set_eq (d : dict) (k v : string) : dict_get (dict_set d k v) k = Some v.
Proof.
  induction d as [|[k' v'] d IH]; simpl.
  - rewrite String.eqb_refl. reflexivity.
  - destruct (String.eqb k' k) eqn:E; simpl; rewrite E; auto.
Qed.

Lemma dict_get_set_ne (d : dict) (k k' v : string) :
  k <> k' -> dict_get (dict_set d k v) k' = dict_get d k'.
Proof.
  intros Hne. induction d as [|[k0 v0] d IH]; simpl.
  - destruct (String.eqb_spec k k'); [contradiction|reflexivity].
  - destruct (String.eqb_spec k0 k) as [->|]; simpl.
    + destruct (String.eqb_spec k k'); [contradiction|reflexivity].
    + rewrite IH. reflexivity.
Qed.

Lemma dict_get_is_Some (d : dict) (k : string) :
  is_Some (dict_get d k) <-> k ∈ dict_keys d.
Proof.
  induction d as [|[k0 v0] d IH]; simpl.
  - rewrite elem_of_nil. split; [intros [? [=]]|tauto].
  - rewrite elem_of_cons. destruct (String.eqb_spec k0 k) as [->|Hne].
    + split; eauto.
    + rewrite IH. simpl. split; [tauto|]. intros [->|?]; [contradiction|assumption].
Qed.

(** ** Parsing *)

Lemma first_seen_elem (l : list string) (x : string) : x ∈ first_seen l <-> x ∈ l.
Proof.
  induction l as [|y l IH]; simpl; [reflexivity|].
  rewrite !elem_of_cons, list_elem_of_filter, IH.
  destruct (String.eqb_spec x y) as [->|Hne]; simpl; intuition congruence.
Qed.

Lemma first_seen_NoDup (l : list string) : NoDup (first_seen l).
Proof.
  induction l as [|y l IH]; simpl; constructor.
  - rewrite list_elem_of_filter, String.eqb_refl. simpl. intros [[] _].
  - apply NoDup_filter, IH.
Qed.

Section ParseLemmas.
Context {T : Type} `{PySet T}.

(** The loop appends the matching lines to the dialogue and adds their
    speakers to the set. *)
Lemma parse_loop (lines : list string) (acc : list (string * string) * T) :
  let matched := omap (fun line => Re.dialogue_match (Str.strip line)) lines in
  fst (fold_left parse_line lines acc) = (fst acc ++ matched)%list
  /\ forall x, x ∈ set_iter (snd (fold_left parse_line lines acc))
               <-> x ∈ set_iter (snd acc) \/ x ∈ map fst matched.
Proof.
  revert acc. induction lines as [|line lines IH]; intros acc; simpl.
  - rewrite app_nil_r. split; [reflexivity|]. intros x. rewrite elem_of_nil. tauto.
  - destruct (IH (parse_line acc line)) as [IHd IHs]. unfold parse_line in *.
    destruct (Re.dialogue_match (Str.strip line)) as [[c t]|]; simpl in *.
    + split.
      * rewrite IHd, <- app_assoc. reflexivity.
      * intros x. rewrite IHs, set_iter_add, elem_of_cons. tauto.
    + split; [exact IHd|exact IHs].
Qed.

Lemma parse_dialogue (content : string) :
  fst (parse_dialogue_file content) = dialogue_of content.
Proof.
  unfold parse_dialogue_file, dialogue_of.
  pose proof (parse_loop (Str.split Chars.newline content) ([], set_new)) as [Hd _].
  destruct (fold_left parse_line _ _) as [d cs]. exact Hd.
Qed.

Lemma parse_characters (content : string) (x : string) :
  x ∈ snd (parse_dialogue_file content) <-> x ∈ map fst (dialogue_of content).
Proof.
  unfold parse_dialogue_file, dialogue_of.
  pose proof (parse_loop (Str.split Chars.newline content) ([], set_new)) as [_ Hs].
  destruct (fold_left parse_line _ _) as [d cs]. simpl in *.
  rewrite Hs, set_iter_new, elem_of_nil. tauto.
Qed.

Lemma parse_characters_NoDup (content : string) :
  NoDup (snd (parse_dialogue_file content)).
Proof.
  unfold parse_dialogue_file.
  destruct (fold_left parse_line _ _) as [d cs]. apply set_iter_NoDup.
Qed.
End ParseLemmas.

Lemma before_last_absent (sep : ascii) (s : string) :
  Str.mem sep s = false -> Str.before_last sep s = None.
Proof.
  induction s as [|c s IH]; simpl; [reflexivity|].
  rewrite orb_false_iff. intros [Hc Hs]. rewrite (IH Hs), Hc. reflexivity.
Qed.

Lemma before_last_split (sep : ascii) (stem ext : string) :
  Str.mem sep ext = false ->
  Str.before_last sep (stem ++ String sep ext) = Some stem.
Proof.
  intros Hext. induction stem as [|c stem IH].
  - rewrite app_empty_l. simpl.
    rewrite (before_last_absent _ _ Hext), Ascii.eqb_refl. reflexivity.
  - rewrite app_cons. simpl. rewrite IH. reflexivity.
Qed.

(** ** The claims *)

(** C1 (as amended). For every input file and every set implementation, the
    speaker list returned by [parse_dialogue_file] has no duplicates and
    holds exactly the speakers of the matching lines; it is a permutation
    of their first-seen order, the order itself being the iteration order
    of the set. *)
Theorem speakers_distinct_in_set_order {T : Type} `{PySet T} (content : string) :
  let dialogue := fst (parse_dialogue_file content) in
  let characters := snd (parse_dialogue_file content) in
  NoDup characters
  /\ (forall x, x ∈ characters <-> x ∈ map fst dialogue)
  /\ characters ≡ₚ first_seen (map fst dialogue).
Proof.
  cbv zeta. rewrite parse_dialogue.
  pose proof (parse_characters_NoDup content) as Hnd.
  pose proof (parse_characters content) as Hel.
  split; [exact Hnd|]. split; [exact Hel|].
  apply NoDup_Permutation; [exact Hnd|apply first_seen_NoDup|].
  intros x. rewrite Hel, first_seen_elem. reflexivity.
Qed.

(** C1 (as stated) fails: with a set that iterates by element rather than
    by insertion, the file "B: x / A: y" lists A before B although B is
    seen first. *)
Lemma speakers_not_first_seen :
  let content := "B: x" ++ nl ++ "A: y" in
  snd (parse_dialogue_file (T:=gset string) content) = ["A"; "B"]
  /\ first_seen (map fst (fst (parse_dialogue_file (T:=gset string) content)))
     = ["B"; "A"]
  /\ snd (parse_dialogue_file (T:=gset string) content)
     <> first_seen (map fst (fst (parse_dialogue_file (T:=gset string) content))).
Proof.
  cbv zeta. split; [vm_compute; reflexivity|]. split; [vm_compute; reflexivity|].
  vm_compute. discriminate.
Qed.

(** C6. A line of the shape "Name: text", possibly between whitespace,
    with Name made of word characters and text starting and ending with a
    non-blank character, yields the dialogue line (Name, text) at its place
    in the file; the dialogue is exactly the matching lines in order, so a
    line that does not match contributes nothing, and parsing never
    fails. *)
Theorem wellformed_line_parsed {T : Type} `{PySet T}
    (content : string) (before after : list string)
    (lead name ws text trail : string) :
  Str.split Chars.newline content
    = (before ++ (lead ++ name ++ ":" ++ ws ++ text ++ trail)%string :: after)%list ->
  Str.all Chars.isspace lead = true ->
  Str.all Chars.isword name = true -> Str.nonempty name = true ->
  Str.all Chars.isspace ws = true ->
  Str.head_is Chars.isspace text = false ->
  Str.last_is (fun c => negb (Chars.isspace c)) text = true ->
  Str.all Chars.isspace trail = true ->
  let matching := omap (fun line => Re.dialogue_match (Str.strip line)) in
  fst (parse_dialogue_file content) = matching (Str.split Chars.newline content)
  /\ fst (parse_dialogue_file content)
     = (matching before ++ (name, text) :: matching after)%list.
Proof.
  intros Hsplit Hlead Hname Hne Hws Hhead Hlast Htrail. cbv zeta.
  rewrite parse_dialogue. unfold dialogue_of. split; [reflexivity|].
  assert (Hdot : Str.all Chars.isdot text = true).
  { pose proof (split_no_sep Chars.newline content
                  (lead ++ name ++ ":" ++ ws ++ text ++ trail)) as Hline.
    rewrite Hsplit in Hline. specialize (Hline ltac:(apply elem_of_app; right; left)).
    change (fun c => negb (Ascii.eqb c Chars.newline)) with Chars.isdot in Hline.
    rewrite !all_app in Hline.
    do 4 (apply andb_true_iff in Hline as [_ Hline]).
    apply andb_true_iff in Hline as [Hline _]. exact Hline. }
  rewrite Hsplit, omap_app. simpl.
  assert (Htne : Str.nonempty text = true) by (destruct text; [discriminate|reflexivity]).
  assert (Hbody : Str.strip (lead ++ name ++ ":" ++ ws ++ text ++ trail)
                  = name ++ ":" ++ ws ++ text).
  { replace (lead ++ name ++ ":" ++ ws ++ text ++ trail)
      with (lead ++ (name ++ ":" ++ ws ++ text) ++ trail) by (norm_app; reflexivity).
    apply strip_body; [assumption..| |].
    - destruct name as [|c name]; [discriminate|]. simpl in Hname.
      apply andb_true_iff in Hname as [Hc _]. rewrite app_cons. simpl.
      apply isword_not_space, Hc.
    - do 3 apply last_is_app. exact Hlast. }
  rewrite Hbody, dialogue_match_shape by assumption. reflexivity.
Qed.

(** [wellformed_line_parsed] on a concrete input. *)
Lemma wellformed_line_parsed_witness :
  fst (parse_dialogue_file (T:=gset string)
         ("  Bob: hi there " ++ nl ++ "no speaker here" ++ nl ++ "Al:yo"))
  = [("Bob", "hi there"); ("Al", "yo")].
Proof.
  refine (proj2 (wellformed_line_parsed (T:=gset string)
            ("  Bob: hi there " ++ nl ++ "no speaker here" ++ nl ++ "Al:yo")
            [] ["no speaker here"; "Al:yo"] "  " "Bob" " " "hi there" " "
            _ _ _ _ _ _ _ _)); reflexivity.
Defined.

(** C10. A stripped line matches only if it starts with a non-empty run of
    word characters followed at once by a colon, optional whitespace and a
    non-empty text. A line whose prefix before the first colon has a
    character that is not a word character, a line with nothing after the
    colon, and a line without a colon produce no dialogue line. *)
Theorem only_word_speakers_match (line : string) :
  (forall character text,
      Re.dialogue_match (Str.strip line) = Some (character, text) ->
      exists ws tail,
        Str.strip line = character ++ ":" ++ ws ++ text ++ tail
        /\ Str.all Chars.isword character = true
        /\ Str.nonempty character = true
        /\ Str.all Chars.isspace ws = true
        /\ Str.nonempty text = true)
  /\ (forall prefix rest,
         Str.strip line = prefix ++ ":" ++ rest ->
         Str.mem ":" prefix = false ->
         Str.all Chars.isword prefix = false ->
         Re.dialogue_match (Str.strip line) = None)
  /\ (forall prefix,
         Str.strip line = prefix ++ ":" ->
         Str.mem ":" prefix = false ->
         Re.dialogue_match (Str.strip line) = None)
  /\ (Str.mem ":" (Str.strip line) = false ->
      Re.dialogue_match (Str.strip line) = None)
  /\ Re.dialogue_match (Str.strip "Dr. Smith: hello") = None
  /\ Re.dialogue_match (Str.strip "Bob:   ") = None.
Proof.
  assert (Hcolon : forall c, Str.all Chars.isword c = true -> Str.mem ":" c = false).
  { intros c Hc. apply mem_false_all. revert Hc. apply all_impl.
    intros a Ha. rewrite (isword_not_colon a Ha). reflexivity. }
  split; [|split; [|split; [|split; [|split; reflexivity]]]].
  - intros character text E.
    apply dialogue_match_sound in E as (ws & tail & E & Hc & Hne & Hws & _ & Htne).
    exists ws, tail. auto.
  - intros prefix rest E Hmem Hbad.
    destruct (Re.dialogue_match (Str.strip line)) as [[c t]|] eqn:M; [|reflexivity].
    apply dialogue_match_sound in M as (ws & tail & E' & Hc & _).
    rewrite E in E'.
    apply split_at_first in E' as [-> _]; [congruence|assumption|auto].
  - intros prefix E Hmem.
    destruct (Re.dialogue_match (Str.strip line)) as [[c t]|] eqn:M; [|reflexivity].
    apply dialogue_match_sound in M as (ws & tail & E' & Hc & _ & _ & _ & Htne).
    rewrite E in E'.
    apply split_at_first in E' as [_ E']; [|assumption|auto].
    destruct ws; [|discriminate]. destruct t; discriminate.
  - intros Hmem.
    destruct (Re.dialogue_match (Str.strip line)) as [[c t]|] eqn:M; [|reflexivity].
    apply dialogue_match_sound in M as (ws & tail & E' & _).
    rewrite E' in Hmem. apply mem_false_all in Hmem.
    rewrite all_app in Hmem. apply andb_true_iff in Hmem as [_ Hmem].
    discriminate.
Qed.

(** [only_word_speakers_match] on a concrete input. *)
Lemma only_word_speakers_match_witness :
  Re.dialogue_match (Str.strip " Dr Smith: hello") = None.
Proof.
  refine (proj1 (proj2 (only_word_speakers_match " Dr Smith: hello"))
            "Dr Smith" " hello" _ _ _); reflexivity.
Defined.

(** C9. The output name is the input path up to its last dot, followed by
    "_output.wav"; a path without a dot is kept whole. "script.txt" gives
    "script_output.wav" and "a.b.txt" gives "a.b_output.wav". *)
Theorem output_name_strips_last_extension (stem ext : string) :
  Str.mem "." ext = false ->
  output_name (stem ++ "." ++ ext) = stem ++ "_output.wav"
  /\ output_name ext = ext ++ "_output.wav"
  /\ output_name "script.txt" = "script_output.wav"
  /\ output_name "a.b.txt" = "a.b_output.wav".
Proof.
  intros Hext. unfold output_name, Str.rsplit1_head.
  split; [|split; [|split; reflexivity]].
  - change (stem ++ "." ++ ext) with (stem ++ String "." ext).
    rewrite (before_last_split _ _ _ Hext). reflexivity.
  - rewrite (before_last_absent _ _ Hext). reflexivity.
Qed.

(** [output_name_strips_last_extension] on a concrete input. *)
Lemma output_name_strips_last_extension_witness :
  output_name ("archive.v2" ++ "." ++ "txt") = "archive.v2" ++ "_output.wav".
Proof.
  refine (proj1 (output_name_strips_last_extension "archive.v2" "txt" _)).
  reflexivity.
Defined.

Lemma assign_from_cons (available : list string) (i : nat) (c : string)
      (rest : list string) (voice_map : dict) :
  assign_from available i (c :: rest) voice_map
  = match length available with
    | O => Raise ZeroDivisionError
    | S _ as n =>
        match nth_error available (i mod n) with
        | Some voice => assign_from available (S i) rest (dict_set voice_map c voice)
        | None => Raise IndexError
        end
    end.
Proof. reflexivity. Qed.

(** The loop of [assign_voices_to_characters] over distinct speakers and a
    non-empty catalog: it ends, the speaker at offset [j] gets the voice at
    index [(i + j) mod V], and other keys keep their voice. *)
Lemma assign_from_spec (available : list string) (characters : list string) :
  available <> [] -> NoDup characters ->
  forall (i : nat) (voice_map : dict),
  exists voice_map',
    assign_from available i characters voice_map = Return voice_map'
    /\ (forall j c, nth_error characters j = Some c ->
          dict_get voice_map' c
          = nth_error available ((i + j) mod length available))
    /\ (forall k, k ∉ characters -> dict_get voice_map' k = dict_get voice_map k).
Proof.
  intros Hav. induction characters as [|c rest IH]; intros Hnd i voice_map.
  - exists voice_map. split; [reflexivity|]. split; [|reflexivity].
    intros [|j] c'; discriminate.
  - apply NoDup_cons in Hnd as [Hc Hrest]. rewrite assign_from_cons.
    destruct (length available) as [|n] eqn:Hlen.
    { destruct available; [contradiction|discriminate]. }
    destruct (nth_error available (i mod S n)) as [voice|] eqn:Hv.
    2:{ apply nth_error_None in Hv.
        pose proof (Nat.mod_upper_bound i (S n)). lia. }
    destruct (IH Hrest (S i) (dict_set voice_map c voice)) as (vm' & Hrun & Hget & Hkeep).
    exists vm'. split; [exact Hrun|]. split.
    + intros [|j] c' Hj; simpl in Hj.
      * injection Hj as <-. rewrite (Hkeep c Hc), dict_get_set_eq, Nat.add_0_r, Hv.
        reflexivity.
      * rewrite (Hget j c' Hj). f_equal. f_equal. lia.
    + intros k Hk. apply not_elem_of_cons in Hk as [Hne Hk].
      rewrite (Hkeep k Hk). apply dict_get_set_ne. congruence.
Qed.

(** C2 (as amended). In auto-assignment mode, for every list of distinct
    speakers and every non-empty catalog of V voices, the assignment ends
    normally and the speaker at index i of the speaker list is given the
    voice at index i mod V of the catalog. The speaker list of a parsed
    file is always such a list; its order is the iteration order of the
    set of speakers, which need not be the order in which they are first
    seen. Five speakers and three voices receive the voices at indices 0,
    1, 2, 0, 1. *)
Theorem assign_round_robin {T : Type} `{PySet T}
    (characters available_voices : list string) (content : string) :
  NoDup characters -> available_voices <> [] ->
  (exists voice_map,
      assign_voices_to_characters characters available_voices = Return voice_map
      /\ forall i c, nth_error characters i = Some c ->
           dict_get voice_map c
           = nth_error available_voices (i mod length available_voices))
  /\ (exists voice_map,
         assign_voices_to_characters (snd (parse_dialogue_file content)) available_voices
         = Return voice_map
         /\ forall i c, nth_error (snd (parse_dialogue_file content)) i = Some c ->
              dict_get voice_map c
              = nth_error available_voices (i mod length available_voices))
  /\ assign_voices_to_characters ["s0"; "s1"; "s2"; "s3"; "s4"] ["v0"; "v1"; "v2"]
     = Return [("s0", "v0"); ("s1", "v1"); ("s2", "v2"); ("s3", "v0"); ("s4", "v1")].
Proof.
  intros Hnd Hav. split; [|split; [|reflexivity]].
  - destruct (assign_from_spec available_voices characters Hav Hnd 0 [])
      as (vm & Hrun & Hget & _).
    exists vm. split; [exact Hrun|]. intros i c Hi. apply (Hget i c Hi).
  - destruct (assign_from_spec available_voices (snd (parse_dialogue_file content))
                Hav (parse_characters_NoDup content) 0 [])
      as (vm & Hrun & Hget & _).
    exists vm. split; [exact Hrun|]. intros i c Hi. apply (Hget i c Hi).
Qed.

(** [assign_round_robin] on a concrete input. *)
Lemma assign_round_robin_witness :
  exists voice_map,
    assign_voices_to_characters ["Ann"; "Bob"; "Cy"; "Di"] ["v0"; "v1"; "v2"]
    = Return voice_map
    /\ dict_get voice_map "Di" = Some "v0".
Proof.
  assert (Hnd : NoDup ["Ann"; "Bob"; "Cy"; "Di"]).
  { apply (bool_decide_unpack _). vm_compute. exact I. }
  assert (Hav : ["v0"; "v1"; "v2"] <> @nil string) by discriminate.
  destruct (proj1 (assign_round_robin (T:=gset string)
                     ["Ann"; "Bob"; "Cy"; "Di"] ["v0"; "v1"; "v2"] "" Hnd Hav))
    as (vm & Hrun & Hget).
  exists vm. split; [exact Hrun|]. exact (Hget 3 "Di" eq_refl).
Defined.

(** C2 (as stated) fails on the program: in the file "B: x / A: y" the
    speaker B is seen first, yet with a set that iterates A before B the
    speaker list is A, B, and B is given the second voice of the catalog,
    not the first. *)
Lemma first_seen_speaker_gets_second_voice :
  let content := "B: x" ++ nl ++ "A: y" in
  let dialogue := fst (parse_dialogue_file (T:=gset string) content) in
  let characters := snd (parse_dialogue_file (T:=gset string) content) in
  nth_error (first_seen (map fst dialogue)) 0 = Some "B"
  /\ characters = ["A"; "B"]
  /\ assign_voices_to_characters characters ["v0"; "v1"]
     = Return [("A", "v0"); ("B", "v1")]
  /\ dict_get [("A", "v0"); ("B", "v1")] "B" = Some "v1"
  /\ dict_get [("A", "v0"); ("B", "v1")] "B"
     <> nth_error ["v0"; "v1"] (0 mod length ["v0"; "v1"]).
Proof.
  cbv zeta. split; [vm_compute; reflexivity|]. split; [vm_compute; reflexivity|].
  split; [vm_compute; reflexivity|]. split; [reflexivity|].
  vm_compute. discriminate.
Qed.

(** ** Pauses and assembly *)

Lemma pause_duration_nonneg (mean stdev : Z) (z : spec_float) (p : Z) :
  pause_duration mean stdev z = Return p -> (0 <= p)%Z.
Proof.
  unfold pause_duration.
  destruct (np_random_normal mean stdev z) as [x| |]; simpl; [|discriminate..].
  destruct (F64.to_int x) as [n| |]; simpl; [|discriminate..].
  intros [= <-]. lia.
Qed.

Lemma of_int_exn (n : Z) (e : exn) : F64.of_int n = Raise e -> e = OverflowError.
Proof.
  unfold F64.of_int.
  destruct (binary_normalize F64.prec F64.emax n 0 false); intros [=]; auto.
Qed.

Lemma to_int_exn (x : spec_float) (e : exn) :
  F64.to_int x = Raise e -> e = ValueError \/ e = OverflowError.
Proof. destruct x; simpl; intros [=]; auto. Qed.

Lemma np_random_normal_exn (loc scale : Z) (z : spec_float) (e : exn) :
  np_random_normal loc scale z = Raise e -> e = ValueError \/ e = OverflowError.
Proof.
  unfold np_random_normal.
  destruct (F64.of_int loc) as [l|e1|] eqn:Hl; simpl.
  - destruct (F64.of_int scale) as [s|e2|] eqn:Hs; simpl.
    + destruct (F64.signbit s); intros [=]; auto.
    + intros [= <-]. right. exact (of_int_exn _ _ Hs).
    + discriminate.
  - intros [= <-]. right. exact (of_int_exn _ _ Hl).
  - discriminate.
Qed.

Lemma pause_duration_exn (mean stdev : Z) (z : spec_float) (e : exn) :
  pause_duration mean stdev z = Raise e -> e = ValueError \/ e = OverflowError.
Proof.
  unfold pause_duration.
  destruct (np_random_normal mean stdev z) as [x|e1|] eqn:Hx; simpl.
  - destruct (F64.to_int x) as [n|e2|] eqn:Hn; simpl.
    + discriminate.
    + intros [= <-]. exact (to_int_exn _ _ Hn).
    + discriminate.
  - intros [= <-]. exact (np_random_normal_exn _ _ _ _ Hx).
  - discriminate.
Qed.

(** With a zero deviation the draw does not matter: 500 + 0 * z = 500. *)
Lemma pause_duration_degenerate (z : spec_float) :
  F64.is_finite z = true -> pause_duration 500 0 z = Return 500%Z.
Proof.
  destruct z as [s|s| |s m e]; try discriminate; intros _;
    destruct s; vm_compute; reflexivity.
Qed.

Section Assembly.
Variables (env : Env) (voice_map : dict) (pause_mean pause_stdev : Z).

Lemma conversation_from_cons (i : nat) (c text : string)
      (rest : list (string * string)) (conversation : AudioSegment) :
  conversation_from env voice_map pause_mean pause_stdev i ((c, text) :: rest)
                    conversation
  = match dict_get voice_map c with
    | None => (Raise (KeyError c), [])
    | Some voice =>
        match pause_duration pause_mean pause_stdev (gauss env i) with
        | Return p =>
            let r := conversation_from env voice_map pause_mean pause_stdev (S i) rest
                       (conversation
                        ++ [Speech text voice (synth_ms env i text voice); Silence p])%list
            in (fst r, Generate text voice :: snd r)
        | Raise e => (Raise e, [Generate text voice])
        | SysExit n => (SysExit n, [Generate text voice])
        end
    end.
Proof.
  simpl. unfold generate_character_audio.
  destruct (dict_get voice_map c) as [voice|]; [|reflexivity].
  destruct (pause_duration pause_mean pause_stdev (gauss env i)); reflexivity.
Qed.

Lemma conversation_from_spec (dialogue : list (string * string)) :
  forall (i : nat) (conversation conversation' : AudioSegment),
    fst (conversation_from env voice_map pause_mean pause_stdev i dialogue conversation)
    = Return conversation' ->
    exists lines,
      assembled env voice_map pause_mean pause_stdev i dialogue lines
      /\ conversation' = (conversation ++ interleave lines)%list.
Proof.
  induction dialogue as [|[c text] rest IH]; intros i conv conv'.
  - simpl. intros [= <-]. exists []. split; [|symmetry; apply app_nil_r].
    split; [reflexivity|]. intros j c text Hj. destruct j; discriminate.
  - rewrite conversation_from_cons.
    destruct (dict_get voice_map c) as [voice|] eqn:Hvoice; [|discriminate].
    destruct (pause_duration pause_mean pause_stdev (gauss env i)) as [p| |] eqn:Hp;
      [|discriminate..].
    simpl. intros Hrun. apply IH in Hrun as (lines & [Hlen Hlines] & ->).
    exists ((Speech text voice (synth_ms env i text voice), p) :: lines).
    split; [split|].
    + simpl. rewrite Hlen. reflexivity.
    + intros [|j] c' text' Hj; simpl in Hj.
      * injection Hj as <- <-. exists voice, p. rewrite Nat.add_0_r. auto.
      * destruct (Hlines j c' text' Hj) as (v' & p' & ? & ? & ?).
        exists v', p'. replace (i + S j) with (S i + j) by lia. auto.
    + rewrite <- app_assoc. reflexivity.
Qed.


Lemma conversation_from_no_KeyError (dialogue : list (string * string)) :
  (forall c text, (c, text) ∈ dialogue -> is_Some (dict_get voice_map c)) ->
  forall (i : nat) (conversation : AudioSegment) (k : string),
    fst (conversation_from env voice_map pause_mean pause_stdev i dialogue conversation)
    <> Raise (KeyError k).
Proof.
  intros Hcov. induction dialogue as [|[c text] rest IH]; intros i conv k.
  - discriminate.
  - rewrite conversation_from_cons.
    destruct (Hcov c text) as [voice ->]; [left|].
    destruct (pause_duration pause_mean pause_stdev (gauss env i)) as [p|e|n] eqn:Hp;
      simpl.
    + apply IH. intros c' text' Hin. apply (Hcov c' text'). right. exact Hin.
    + apply pause_duration_exn in Hp as [-> | ->]; discriminate.
    + discriminate.
Qed.
End Assembly.

Lemma silence_in_assembled (env : Env) (voice_map : dict) (pause_mean pause_stdev : Z)
      (i : nat) (dialogue : list (string * string)) (lines : list (clip * Z)) (ms : Z) :
  assembled env voice_map pause_mean pause_stdev i dialogue lines ->
  Silence ms ∈ interleave lines ->
  exists j, pause_duration pause_mean pause_stdev (gauss env (i + j)) = Return ms.
Proof.
  intros [Hlen Hlines] Hin. unfold interleave in Hin.
  apply list_elem_of_In, in_flat_map in Hin as ([s p] & Hsp & Hms).
  apply list_elem_of_In, list_elem_of_lookup in Hsp as [j Hj].
  assert (Hlt : j < length dialogue).
  { rewrite <- Hlen. apply lookup_lt_is_Some. eauto. }
  apply lookup_lt_is_Some in Hlt as [[c text] Hd].
  destruct (Hlines j c text Hd) as (voice & p' & _ & Hp & Hj').
  rewrite Hj in Hj'. injection Hj' as -> ->.
  exists j. simpl in Hms. destruct Hms as [Hms|[Hms|[]]]; [discriminate|].
  injection Hms as <-. exact Hp.
Qed.

(** C7. The pause computed for a line is never negative, whatever the mean,
    the deviation and the draw, so every silence of an assembled
    conversation has a non-negative length; and with mean 500 and deviation
    0 the pause is exactly 500 ms for every finite draw, so every silence
    then lasts 500 ms. *)
Theorem pause_clamped_and_degenerate (env : Env) (dialogue : list (string * string))
    (voice_map : dict) (pause_mean pause_stdev : Z) (z : spec_float) :
  (forall i, F64.is_finite (gauss env i) = true) ->
  F64.is_finite z = true ->
  (forall p, pause_duration pause_mean pause_stdev z = Return p -> (0 <= p)%Z)
  /\ pause_duration 500 0 z = Return 500%Z
  /\ (forall conversation ms,
        fst (create_conversation_audio env dialogue voice_map pause_mean pause_stdev)
        = Return conversation ->
        Silence ms ∈ conversation -> (0 <= ms)%Z)
  /\ (forall conversation ms,
        fst (create_conversation_audio env dialogue voice_map 500 0)
        = Return conversation ->
        Silence ms ∈ conversation -> ms = 500%Z).
Proof.
  intros Hfin Hz. split; [|split; [|split]].
  - intros p. apply pause_duration_nonneg.
  - apply pause_duration_degenerate, Hz.
  - intros conv ms Hrun Hin.
    apply conversation_from_spec in Hrun as (lines & Hlines & ->).
    destruct (silence_in_assembled _ _ _ _ _ _ _ _ Hlines Hin) as [j Hp].
    exact (pause_duration_nonneg _ _ _ _ Hp).
  - intros conv ms Hrun Hin.
    apply conversation_from_spec in Hrun as (lines & Hlines & ->).
    destruct (silence_in_assembled _ _ _ _ _ _ _ _ Hlines Hin) as [j Hp].
    rewrite pause_duration_degenerate in Hp by apply Hfin. congruence.
Qed.

(** [pause_clamped_and_degenerate] on a concrete input. *)
Lemma pause_clamped_and_degenerate_witness :
  pause_duration 500 0 (S754_finite true 5629499534213120 (-51)) = Return 500%Z.
Proof.
  refine (proj1 (proj2 (pause_clamped_and_degenerate two_lines_env two_lines
                          [("Ann", "v0"); ("Bob", "v1")] 500 0
                          (S754_finite true 5629499534213120 (-51)) _ _))).
  - intros i. reflexivity.
  - reflexivity.
Defined.

(** ** The timeline in frames *)

Lemma obind_return {A B : Type} (m : outcome A) (f : A -> outcome B) (b : B) :
  obind m f = Return b -> exists a, m = Return a /\ f a = Return b.
Proof. destruct m as [a|e|n]; simpl; [eauto|discriminate..]. Qed.

Lemma build_return (limit : Z) (s s' : Pydub.segment) :
  Pydub.build limit s = Return s' -> s' = s.
Proof.
  unfold Pydub.build. destruct (Pydub.data_bytes s <=? limit)%Z; [|discriminate].
  intros [= <-]. reflexivity.
Qed.

Lemma frames_at_ext (rate : Z) (a b : Pydub.segment) :
  Pydub.frame_rate a = Pydub.frame_rate b ->
  Pydub.frame_count a = Pydub.frame_count b ->
  Pydub.frames_at rate a = Pydub.frames_at rate b.
Proof. unfold Pydub.frames_at. intros -> ->. reflexivity. Qed.

Lemma frames_at_same (s : Pydub.segment) :
  Pydub.frames_at (Pydub.frame_rate s) s = Pydub.frame_count s.
Proof. unfold Pydub.frames_at. rewrite Z.eqb_refl. reflexivity. Qed.

Lemma frames_at_no_data (rate : Z) (s : Pydub.segment) :
  Pydub.frame_count s = 0%Z -> Pydub.frames_at rate s = 0%Z.
Proof.
  unfold Pydub.frames_at. intros Hs. rewrite Hs.
  destruct (rate =? Pydub.frame_rate s)%Z; reflexivity.
Qed.

Lemma set_channels_keeps (limit n : Z) (s s' : Pydub.segment) :
  Pydub.set_channels limit n s = Return s' ->
  Pydub.frame_rate s' = Pydub.frame_rate s
  /\ Pydub.frame_count s' = Pydub.frame_count s.
Proof.
  unfold Pydub.set_channels.
  destruct (n =? Pydub.channels s)%Z; [intros [= <-]; auto|].
  destruct ((n =? 1)%Z || (Pydub.channels s =? 1)%Z); [|discriminate].
  intros Hb. apply build_return in Hb as ->. auto.
Qed.

Lemma set_frame_rate_frames (limit rate : Z) (s s' : Pydub.segment) :
  Pydub.set_frame_rate limit rate s = Return s' ->
  Pydub.frame_rate s' = rate
  /\ Pydub.frame_count s' = Pydub.frames_at rate s.
Proof.
  unfold Pydub.set_frame_rate.
  destruct (Z.eqb_spec rate (Pydub.frame_rate s)) as [->|Hne].
  - intros [= <-]. rewrite frames_at_same. auto.
  - intros Hb. apply build_return in Hb as ->. auto.
Qed.

Lemma set_sample_width_keeps (limit width : Z) (s s' : Pydub.segment) :
  Pydub.set_sample_width limit width s = Return s' ->
  Pydub.frame_rate s' = Pydub.frame_rate s
  /\ Pydub.frame_count s' = Pydub.frame_count s.
Proof.
  unfold Pydub.set_sample_width.
  destruct (width =? Pydub.sample_width s)%Z; [intros [= <-]; auto|].
  intros Hb. apply build_return in Hb as ->. auto.
Qed.

(** Only the change of frame rate touches the number of frames. *)
Lemma convert_frames (limit n rate width : Z) (s s' : Pydub.segment) :
  Pydub.convert limit n rate width s = Return s' ->
  Pydub.frame_rate s' = rate
  /\ Pydub.frame_count s' = Pydub.frames_at rate s.
Proof.
  unfold Pydub.convert. intros Hc.
  apply obind_return in Hc as (s1 & H1 & Hc).
  apply obind_return in Hc as (s2 & H2 & H3).
  apply set_channels_keeps in H1 as [Hr1 Hf1].
  apply set_frame_rate_frames in H2 as [Hr2 Hf2].
  apply set_sample_width_keeps in H3 as [Hr3 Hf3].
  split; [congruence|].
  rewrite Hf3, Hf2. apply frames_at_ext; assumption.
Qed.

(** The sum of two segments has the larger frame rate and the frames of
    both at that rate. *)
Lemma append_frames (limit : Z) (a b s : Pydub.segment) :
  Pydub.append limit a b = Return s ->
  let rate := Z.max (Pydub.frame_rate a) (Pydub.frame_rate b) in
  Pydub.frame_rate s = rate
  /\ Pydub.frame_count s = (Pydub.frames_at rate a + Pydub.frames_at rate b)%Z.
Proof.
  unfold Pydub.append. cbv zeta. intros Ha.
  apply obind_return in Ha as (a' & Ha' & Ha).
  apply obind_return in Ha as (b' & Hb' & Hs).
  apply build_return in Hs as ->. simpl.
  apply convert_frames in Ha' as [Hra Hfa].
  apply convert_frames in Hb' as [Hrb Hfb].
  split; [exact Hra|]. rewrite Hfa, Hfb. reflexivity.
Qed.

Lemma silent_segment (limit duration : Z) (s : Pydub.segment) :
  Pydub.silent limit duration = Return s ->
  exists frames,
    Pydub.silent_frames duration = Return frames /\ s = Pydub.silence frames.
Proof.
  unfold Pydub.silent. intros Hs.
  apply obind_return in Hs as (frames & Hf & Hs).
  destruct (2 ^ 63 <=? frames)%Z; [discriminate|].
  apply build_return in Hs as ->. eauto.
Qed.

Lemma conversation_frames_cons (pf : Platform) (env : Env) (voice_map : dict)
      (pause_mean pause_stdev : Z) (i : nat) (c text : string)
      (rest : list (string * string)) (conversation : Pydub.segment) :
  conversation_frames pf env voice_map pause_mean pause_stdev i ((c, text) :: rest)
                      conversation
  = match dict_get voice_map c with
    | None => Raise (KeyError c)
    | Some voice =>
        obind (pause_duration pause_mean pause_stdev (gauss env i)) (fun pause =>
        obind (Pydub.silent (max_alloc pf) pause) (fun silence =>
        obind (Pydub.append (max_alloc pf) (decoded pf i text voice) silence) (fun part =>
        obind (Pydub.append (max_alloc pf) conversation part) (fun conversation' =>
        conversation_frames pf env voice_map pause_mean pause_stdev (S i) rest
                            conversation'))))
    end.
Proof. reflexivity. Qed.

(** The loop in frames, from a conversation that is at the segments' frame
    rate or has no data yet and a lower rate. *)
Lemma conversation_frames_spec (pf : Platform) (env : Env) (voice_map : dict)
      (pause_mean pause_stdev : Z) (rate : Z) (dialogue : list (string * string)) :
  (forall i text voice, Pydub.frame_rate (decoded pf i text voice) = rate) ->
  (11025 <= rate)%Z ->
  forall (i : nat) (conversation result : Pydub.segment),
    Pydub.frame_rate conversation = rate
    \/ (Pydub.frame_count conversation = 0%Z
        /\ (Pydub.frame_rate conversation <= rate)%Z) ->
    conversation_frames pf env voice_map pause_mean pause_stdev i dialogue conversation
    = Return result ->
    exists parts,
      framed pf env voice_map pause_mean pause_stdev rate i dialogue parts
      /\ Pydub.frame_count result
         = (Pydub.frame_count conversation + frames_total parts)%Z
      /\ (dialogue <> [] -> Pydub.frame_rate result = rate).
Proof.
  intros Hrate Hlow.
  induction dialogue as [|[c text] rest IH]; intros i conv result Hconv.
  - simpl. intros [= <-]. exists []. split; [|split].
    + split; [reflexivity|]. intros j c text Hj. destruct j; discriminate.
    + simpl. lia.
    + intros Hne. contradiction.
  - rewrite conversation_frames_cons.
    destruct (dict_get voice_map c) as [voice|] eqn:Hvoice; [|discriminate].
    intros Hrun.
    apply obind_return in Hrun as (pause & Hpause & Hrun).
    apply obind_return in Hrun as (silence & Hsil & Hrun).
    apply obind_return in Hrun as (part & Hpart & Hrun).
    apply obind_return in Hrun as (conv' & Hconv' & Hrun).
    apply silent_segment in Hsil as (frames & Hframes & ->).
    apply append_frames in Hpart. cbv zeta in Hpart.
    rewrite (Hrate i text voice) in Hpart.
    change (Pydub.frame_rate (Pydub.silence frames)) with 11025%Z in Hpart.
    rewrite (Z.max_l rate 11025 Hlow) in Hpart. destruct Hpart as [Hprate Hpframes].
    assert (Hseg : Pydub.frames_at rate (decoded pf i text voice)
                   = Pydub.frame_count (decoded pf i text voice))
      by (rewrite <- (Hrate i text voice) at 1; apply frames_at_same).
    rewrite Hseg in Hpframes.
    apply append_frames in Hconv'. cbv zeta in Hconv'. rewrite Hprate in Hconv'.
    assert (Hmax : Z.max (Pydub.frame_rate conv) rate = rate)
      by (destruct Hconv as [->|[_ Hle]]; lia).
    rewrite Hmax in Hconv'. destruct Hconv' as [Hcrate Hcframes].
    assert (Hkeep : Pydub.frames_at rate conv = Pydub.frame_count conv).
    { destruct Hconv as [<-|[Hzero _]].
      - apply frames_at_same.
      - rewrite Hzero. apply frames_at_no_data, Hzero. }
    rewrite Hkeep in Hcframes.
    assert (Hp : Pydub.frames_at rate part = Pydub.frame_count part)
      by (rewrite <- Hprate; apply frames_at_same).
    rewrite Hp in Hcframes.
    destruct (IH (S i) conv' result (or_introl Hcrate) Hrun)
      as (parts & [Hlen Hparts] & Hsum & Hr).
    exists ((Pydub.frame_count (decoded pf i text voice),
             Pydub.frames_at rate (Pydub.silence frames)) :: parts).
    split; [split|split].
    + simpl. rewrite Hlen. reflexivity.
    + intros [|j] c' text' Hj; simpl in Hj.
      * injection Hj as <- <-. exists voice, pause, frames.
        rewrite Nat.add_0_r. auto.
      * destruct (Hparts j c' text' Hj) as (v' & p' & n' & ? & ? & ? & ?).
        exists v', p', n'. replace (i + S j) with (S i + j) by lia. auto.
    + rewrite Hsum, Hcframes, Hpframes. simpl frames_total. simpl fst. simpl snd. lia.
    + intros _. destruct rest as [|line rest'].
      * simpl in Hrun. congruence.
      * apply Hr. discriminate.
Qed.

(** C8 (as amended). A returned conversation is, in dialogue order, each
    line's segment followed by the silence asked for with that line's
    pause, a pause following every line, the last one too. When the
    segments all have one frame rate of at least 11025 Hz, the timeline has
    that frame rate (for a dialogue that is not empty) and as many frames
    as the segments and the silences together, each silence counted at that
    rate. Its length in milliseconds is this number of frames over the
    rate, rounded: two segments of 1000 ms and 1500 ms at 44100 Hz with a
    fixed pause of 200 ms give 127884 frames, that is 2900 ms. *)
Theorem timeline_is_parts_in_order (pf : Platform) (env : Env)
    (dialogue : list (string * string)) (voice_map : dict)
    (pause_mean pause_stdev : Z) (rate : Z) :
  (forall i text voice, Pydub.frame_rate (decoded pf i text voice) = rate) ->
  (11025 <= rate)%Z ->
  (forall conversation,
      fst (create_conversation_audio env dialogue voice_map pause_mean pause_stdev)
      = Return conversation ->
      exists lines,
        assembled env voice_map pause_mean pause_stdev 0 dialogue lines
        /\ conversation = interleave lines)
  /\ (forall timeline,
        create_conversation_frames pf env dialogue voice_map pause_mean pause_stdev
        = Return timeline ->
        exists parts,
          framed pf env voice_map pause_mean pause_stdev rate 0 dialogue parts
          /\ Pydub.frame_count timeline = frames_total parts
          /\ (dialogue <> [] -> Pydub.frame_rate timeline = rate))
  /\ (exists timeline,
        create_conversation_frames cd_platform two_lines_env two_lines
          [("Ann", "v0"); ("Bob", "v1")] 200 0 = Return timeline
        /\ Pydub.frame_count timeline = (44100 + 8817 + 66150 + 8817)%Z
        /\ Pydub.len timeline = Return 2900%Z).
Proof.
  intros Hrate Hlow. split; [|split].
  - intros conversation Hrun.
    apply conversation_from_spec in Hrun as (lines & Hlines & ->).
    exists lines. split; [exact Hlines|reflexivity].
  - intros timeline Hrun. unfold create_conversation_frames in Hrun.
    destruct (conversation_frames_spec pf env voice_map pause_mean pause_stdev rate
                dialogue Hrate Hlow 0 Pydub.empty timeline) as (parts & Hparts & Hsum & Hr).
    + right. split; [reflexivity|]. simpl. lia.
    + exact Hrun.
    + exists parts. split; [exact Hparts|]. split; [|exact Hr].
      rewrite Hsum. reflexivity.
  - eexists. split; [vm_compute; reflexivity|]. split; vm_compute; reflexivity.
Qed.

(** [timeline_is_parts_in_order] on a concrete input. *)
Lemma timeline_is_parts_in_order_witness :
  exists parts,
    framed second_platform two_lines_env [("Ann", "v0")] 200 0 44100 0 eight_lines parts
    /\ (8 * (44100 + 8817))%Z = frames_total parts
    /\ (eight_lines <> [] -> 44100%Z = 44100%Z).
Proof.
  refine (proj1 (proj2 (timeline_is_parts_in_order second_platform two_lines_env
                          eight_lines [("Ann", "v0")] 200 0 44100 _ _))
            {| Pydub.frame_rate := 44100; Pydub.channels := 1;
               Pydub.sample_width := 2; Pydub.frame_count := 8 * (44100 + 8817) |} _).
  - intros i text voice. reflexivity.
  - lia.
  - vm_compute. reflexivity.
Defined.

(** C8 (as stated) fails twice. Its example: two segments of 1000 ms and
    1500 ms with a fixed pause of 200 ms give a timeline of 2900 ms, not
    2700 ms, the second line having its pause too. Its sum: eight segments
    of 1000 ms at 44100 Hz with a fixed pause of 200 ms give a timeline of
    9599 ms, while the segments and the pauses add up to 9600 ms, because
    each silence of 2205 frames at 11025 Hz becomes 8817 frames at 44100 Hz
    and not 8820. *)
Lemma two_lines_not_2700 :
  (exists timeline,
      create_conversation_frames cd_platform two_lines_env two_lines
        [("Ann", "v0"); ("Bob", "v1")] 200 0 = Return timeline
      /\ Pydub.len (decoded cd_platform 0 "Hello." "v0") = Return 1000%Z
      /\ Pydub.len (decoded cd_platform 1 "Hi, Ann." "v1") = Return 1500%Z
      /\ Pydub.len timeline = Return 2900%Z
      /\ Pydub.len timeline <> Return 2700%Z)
  /\ (exists timeline,
        create_conversation_frames second_platform two_lines_env eight_lines
          [("Ann", "v0")] 200 0 = Return timeline
        /\ (forall i text voice,
              Pydub.len (decoded second_platform i text voice) = Return 1000%Z)
        /\ (forall i, pause_duration 200 0 (gauss two_lines_env i) = Return 200%Z)
        /\ Pydub.len timeline = Return 9599%Z
        /\ Pydub.len timeline <> Return (8 * (1000 + 200))%Z).
Proof.
  split.
  - eexists. split; [vm_compute; reflexivity|].
    split; [vm_compute; reflexivity|]. split; [vm_compute; reflexivity|].
    split; [vm_compute; reflexivity|]. vm_compute. discriminate.
  - eexists. split; [vm_compute; reflexivity|].
    split; [intros i text voice; vm_compute; reflexivity|].
    split; [intros i; simpl gauss; destruct (Nat.even i); vm_compute; reflexivity|].
    split; [vm_compute; reflexivity|]. vm_compute. discriminate.
Qed.

(** ** Whole runs *)

Lemma run_bind_return {A B : Type} (a : A) (t : list event) (f : A -> run B) :
  ((Return a, t) ≫= f) = (fst (f a), (t ++ snd (f a))%list).
Proof. reflexivity. Qed.

Lemma run_bind_raise {A B : Type} (e : exn) (t : list event) (f : A -> run B) :
  ((Raise e, t) ≫= f) = (Raise e, t).
Proof. reflexivity. Qed.

Lemma run_bind_exit {A B : Type} (n : Z) (t : list event) (f : A -> run B) :
  ((SysExit n, t) ≫= f) = (SysExit n, t).
Proof. reflexivity. Qed.

Lemma run_bind_pure {A B : Type} (a : A) (f : A -> run B) :
  ((Return a, []) ≫= f) = f a.
Proof. rewrite run_bind_return. destruct (f a). reflexivity. Qed.

Section Runs.
Context {T : Type} `{PySet T}.

Lemma main_unfold (env : Env) (args : Args) :
main env args
= (resolve_voice_map env args (snd (parse_dialogue_file (file_content env)))
   ≫= synthesize_and_export env args (fst (parse_dialogue_file (file_content env)))).
Proof.
unfold main. destruct (parse_dialogue_file (file_content env)). reflexivity.
Qed.

(** The voices of the custom map that the provider does not offer. *)
Lemma invalid_voices_elem (values available : list string) (v : string) :
v ∈ set_iter (set_sub (set_of_list (T:=T) values) (set_of_list available))
<-> v ∈ values /\ v ∉ available.
Proof. rewrite set_iter_sub, !elem_of_set_of_list. reflexivity. Qed.

Lemma resolve_custom (env : Env) (args : Args) (characters : list string) :
speaker_map_given args = true ->
let custom := json_load (map_members env) in
let invalid : T :=
  set_sub (set_of_list (dict_values custom)) (set_of_list (provider_voices env)) in
resolve_voice_map env args characters
= if truthy (set_iter invalid)
  then (SysExit 1,
        [Print ("Warning: The following voices in the custom map are not available: "
                ++ Str.join ", " (set_iter invalid));
         Print ("Available voices: " ++ Str.join ", " (provider_voices env))])
  else (Return custom, []).
Proof.
intros Hgiven. cbv zeta. unfold resolve_voice_map. rewrite Hgiven.
destruct (truthy _); reflexivity.
Qed.

Lemma resolve_auto (env : Env) (args : Args) (characters : list string) :
speaker_map_given args = false ->
resolve_voice_map env args characters
= (assign_voices_to_characters characters (provider_voices env), []).
Proof. intros Hauto. unfold resolve_voice_map. rewrite Hauto. reflexivity. Qed.

End Runs.

(** C3. In custom mode, when every voice of the user's map is offered by
    the provider, the map as loaded is the voice map of the run, unchanged,
    and nothing is printed while it is checked; when some voice is not
    offered, the run prints the voices that are not offered (each once) and
    then the whole catalog, exits with status 1 and makes no synthesis
    call. *)
Theorem custom_map_validated {T : Type} `{PySet T} (env : Env) (args : Args) :
  speaker_map_given args = true ->
  let custom := json_load (map_members env) in
  let available := provider_voices env in
  let dialogue := fst (parse_dialogue_file (file_content env)) in
  let characters := snd (parse_dialogue_file (file_content env)) in
  ((forall v, v ∈ dict_values custom -> v ∈ available) ->
     resolve_voice_map env args characters = (Return custom, [])
     /\ main env args = synthesize_and_export env args dialogue custom)
  /\ (~ (forall v, v ∈ dict_values custom -> v ∈ available) ->
        exists invalid,
          main env args
          = (SysExit 1,
             [Print ("Warning: The following voices in the custom map are not available: "
                     ++ Str.join ", " invalid);
              Print ("Available voices: " ++ Str.join ", " available)])
          /\ invalid <> []
          /\ NoDup invalid
          /\ (forall v, v ∈ invalid <-> v ∈ dict_values custom /\ v ∉ available)
          /\ exit_status (fst (main env args)) = 1%Z
          /\ generated (snd (main env args)) = []).
Proof.
  intros Hgiven. cbv zeta. rewrite main_unfold.
  rewrite (resolve_custom env args _ Hgiven). cbv zeta.
  set (invalid := set_iter (set_sub _ _)).
  assert (Hinv : forall v, v ∈ invalid
            <-> v ∈ dict_values (json_load (map_members env))
                /\ v ∉ provider_voices env)
    by (intros v; apply invalid_voices_elem).
  assert (Hnd : NoDup invalid) by apply set_iter_NoDup.
  clearbody invalid. destruct invalid as [|v0 rest]; simpl.
  - split.
    + intros _. split; [reflexivity|]. apply run_bind_pure.
    + intros Hbad. exfalso. apply Hbad. intros v Hv.
      destruct (decide (v ∈ provider_voices env)) as [|Hout]; [assumption|].
      exfalso. apply (not_elem_of_nil v), Hinv. auto.
  - split.
    + intros Hall. exfalso.
      assert (Hv0 : v0 ∈ v0 :: rest) by left.
      apply Hinv in Hv0 as [Hin Hout]. apply Hout, Hall, Hin.
    + intros _. exists (v0 :: rest). rewrite run_bind_exit.
      split; [reflexivity|]. split; [discriminate|]. split; [exact Hnd|].
      split; [exact Hinv|]. split; reflexivity.
Qed.

(** [custom_map_validated] on a concrete input. *)
Lemma custom_map_validated_witness :
  main (T:=gset string) (one_line_env [("Ann", "v1")] ["v0"; "v1"]) custom_args
  = synthesize_and_export (one_line_env [("Ann", "v1")] ["v0"; "v1"]) custom_args
      [("Ann", "Hello.")] [("Ann", "v1")]
  /\ exists invalid,
       main (T:=gset string) (one_line_env [("Ann", "v9")] ["v0"; "v1"]) custom_args
       = (SysExit 1,
          [Print ("Warning: The following voices in the custom map are not available: "
                  ++ Str.join ", " invalid);
           Print "Available voices: v0, v1"])
       /\ invalid <> [].
Proof.
  split.
  - refine (proj2 (proj1 (custom_map_validated (T:=gset string)
                            (one_line_env [("Ann", "v1")] ["v0"; "v1"]) custom_args _) _)).
    + reflexivity.
    + intros v Hv. apply elem_of_cons in Hv as [->|Hv].
      * right. left.
      * apply elem_of_nil in Hv as [].
  - destruct (proj2 (custom_map_validated (T:=gset string)
                       (one_line_env [("Ann", "v9")] ["v0"; "v1"]) custom_args eq_refl))
      as (invalid & Hrun & Hne & _).
    + intros Hall. specialize (Hall "v9" ltac:(left)).
      apply elem_of_cons in Hall as [Hall|Hall]; [discriminate|].
      apply elem_of_cons in Hall as [Hall|Hall]; [discriminate|].
      apply elem_of_nil in Hall as [].
    + exists invalid. split; [exact Hrun|exact Hne].
Defined.

(** C4 (as amended). In auto-assignment mode with at least one speaker, an
    empty voice catalog is not guarded: the run ends with an uncaught
    ZeroDivisionError raised for the first speaker, before anything is
    printed and before any synthesis call; its exit status is 1. *)
Theorem empty_catalog_unguarded {T : Type} `{PySet T} (env : Env) (args : Args) :
  speaker_map_given args = false ->
  provider_voices env = [] ->
  snd (parse_dialogue_file (file_content env)) <> [] ->
  main env args = (Raise ZeroDivisionError, [])
  /\ exit_status (fst (main env args)) = 1%Z
  /\ printed (snd (main env args)) = []
  /\ generated (snd (main env args)) = [].
Proof.
  intros Hauto Hempty Hspeakers.
  assert (Hmain : main env args = (Raise ZeroDivisionError, [])).
  { rewrite main_unfold, (resolve_auto env args _ Hauto), Hempty.
    destruct (snd (parse_dialogue_file (file_content env))) as [|c rest];
      [contradiction|].
    unfold assign_voices_to_characters. rewrite assign_from_cons. simpl.
    apply run_bind_raise. }
  rewrite Hmain. auto.
Qed.

(** [empty_catalog_unguarded] on a concrete input. *)
Lemma empty_catalog_unguarded_witness :
  main (T:=gset string) (one_line_env [] []) auto_args = (Raise ZeroDivisionError, []).
Proof.
  refine (proj1 (empty_catalog_unguarded (T:=gset string) (one_line_env [] [])
                   auto_args _ _ _)).
  - reflexivity.
  - reflexivity.
  - vm_compute. discriminate.
Defined.

(** C4 (as stated) fails: one speaker and an empty catalog end in the
    division fault itself, with no message printed. *)
Lemma empty_catalog_faults :
  main (T:=gset string) (one_line_env [] []) auto_args = (Raise ZeroDivisionError, [])
  /\ printed (snd (main (T:=gset string) (one_line_env [] []) auto_args)) = [].
Proof. split; vm_compute; reflexivity. Qed.

Lemma assign_covers (characters available : list string) (voice_map : dict) :
  NoDup characters ->
  assign_voices_to_characters characters available = Return voice_map ->
  forall c, c ∈ characters -> is_Some (dict_get voice_map c).
Proof.
  intros Hnd Hrun c Hc.
  destruct available as [|v available].
  { destruct characters as [|c0 rest]; [apply elem_of_nil in Hc as []|].
    unfold assign_voices_to_characters in Hrun. rewrite assign_from_cons in Hrun.
    discriminate. }
  destruct (assign_from_spec (v :: available) characters ltac:(discriminate) Hnd 0 [])
    as (vm & Hrun' & Hget & _).
  unfold assign_voices_to_characters in Hrun. rewrite Hrun' in Hrun.
  injection Hrun as ->.
  apply list_elem_of_In, In_nth_error in Hc as [j Hj].
  rewrite (Hget j c Hj).
  destruct (nth_error (v :: available) ((0 + j) mod length (v :: available))) eqn:E;
    [eauto|].
  apply nth_error_None in E.
  pose proof (Nat.mod_upper_bound (0 + j) (length (v :: available))) as Hlt.
  simpl in *. lia.
Qed.

(** C5 (as amended). In every auto-mode run that reaches assembly the voice
    map has an entry for every speaker of the dialogue, so no voice lookup
    fails during assembly. In custom mode the voice map is the user's map,
    and the same holds only when that map names every speaker of the
    dialogue. *)
Theorem voice_map_covers_speakers {T : Type} `{PySet T} (env : Env) (args : Args)
    (voice_map : dict) (t : list event) :
  let dialogue := fst (parse_dialogue_file (file_content env)) in
  let characters := snd (parse_dialogue_file (file_content env)) in
  resolve_voice_map env args characters = (Return voice_map, t) ->
  (speaker_map_given args = false
   \/ forall c text, (c, text) ∈ dialogue -> c ∈ dict_keys (json_load (map_members env))) ->
  (speaker_map_given args = true -> voice_map = json_load (map_members env))
  /\ (forall c text, (c, text) ∈ dialogue -> is_Some (dict_get voice_map c))
  /\ (forall k,
        fst (create_conversation_audio env dialogue voice_map
               (pause_mean args) (pause_stdev args))
        <> Raise (KeyError k)).
Proof.
  cbv zeta. intros Hresolve Hmode.
  assert (Hcustom : speaker_map_given args = true ->
                    voice_map = json_load (map_members env)).
  { intros Hgiven. rewrite (resolve_custom env args _ Hgiven) in Hresolve.
    cbv zeta in Hresolve. destruct (truthy _); [discriminate|].
    injection Hresolve as <- _. reflexivity. }
  assert (Hcov : forall c text,
             (c, text) ∈ fst (parse_dialogue_file (file_content env)) ->
             is_Some (dict_get voice_map c)).
  { intros c text Hin. destruct (speaker_map_given args) eqn:Hgiven.
    - destruct Hmode as [|Hkeys]; [discriminate|].
      rewrite (Hcustom eq_refl). apply dict_get_is_Some, (Hkeys c text Hin).
    - rewrite (resolve_auto env args _ Hgiven) in Hresolve.
      injection Hresolve as Hassign _.
      apply (assign_covers _ _ _ (parse_characters_NoDup _) Hassign).
      apply parse_characters. rewrite <- parse_dialogue.
      apply (list_elem_of_fmap_2 fst _ (c, text)), Hin. }
  split; [exact Hcustom|]. split; [exact Hcov|].
  intros k. apply conversation_from_no_KeyError, Hcov.
Qed.

(** [voice_map_covers_speakers] on a concrete input. *)
Lemma voice_map_covers_speakers_witness :
  is_Some (dict_get [("Ann", "v0")] "Ann").
Proof.
  refine (proj1 (proj2 (voice_map_covers_speakers (T:=gset string)
                          (one_line_env [] ["v0"; "v1"]) auto_args
                          [("Ann", "v0")] [] _ _)) "Ann" "Hello." _).
  - vm_compute. reflexivity.
  - left. reflexivity.
  - vm_compute. left.
Defined.

(** C5 (as stated) fails in custom mode: a map whose voices are all offered
    but which does not name the speaker Ann passes the check, the run
    reaches assembly, and the lookup for Ann's line raises KeyError. *)
Lemma custom_map_missing_speaker :
  resolve_voice_map (T:=gset string) (one_line_env [("Bob", "v0")] ["v0"; "v1"])
    custom_args ["Ann"]
  = (Return [("Bob", "v0")], [])
  /\ dict_get [("Bob", "v0")] "Ann" = None
  /\ main (T:=gset string) (one_line_env [("Bob", "v0")] ["v0"; "v1"]) custom_args
     = (Raise (KeyError "Ann"), [Print "Voice assignments:"; Print "Bob: v0"]).
Proof. split; [|split]; vm_compute; reflexivity. Qed.

(** * Further properties of the code *)

(** ** Parsing *)

Lemma split_nonempty (sep : ascii) (s : string) : Str.split sep s <> [].
Proof.
  destruct s as [|c s]; simpl; [discriminate|].
  destruct (Ascii.eqb c sep); [discriminate|].
  destruct (Str.split sep s); discriminate.
Qed.

Lemma split_whole (sep : ascii) (s : string) :
  Str.mem sep s = false -> Str.split sep s = [s].
Proof.
  induction s as [|c s IH]; simpl; [reflexivity|].
  rewrite orb_false_iff. intros [Hc Hs]. rewrite Hc, (IH Hs). reflexivity.
Qed.

Lemma split_app_sep (sep : ascii) (a b : string) :
  Str.split sep (a ++ String sep b) = (Str.split sep a ++ Str.split sep b)%list.
Proof.
  induction a as [|c a IH].
  - rewrite app_empty_l. simpl. rewrite Ascii.eqb_refl. reflexivity.
  - rewrite app_cons. simpl. destruct (Ascii.eqb c sep); [rewrite IH; reflexivity|].
    rewrite IH. pose proof (split_nonempty sep a) as Hne.
    destruct (Str.split sep a) as [|h t]; [contradiction|reflexivity].
Qed.

Lemma split_join (sep : ascii) (lines : list string) :
  lines <> [] -> Forall (fun l => Str.mem sep l = false) lines ->
  Str.split sep (Str.join (String sep "") lines) = lines.
Proof.
  induction lines as [|x rest IH]; [contradiction|].
  intros _ Hall. apply Forall_cons in Hall as [Hx Hrest].
  destruct rest as [|y rest].
  - simpl. apply split_whole, Hx.
  - change (Str.join (String sep "") (x :: y :: rest))
      with (x ++ String sep (Str.join (String sep "") (y :: rest))).
    rewrite split_app_sep, (split_whole _ _ Hx), IH by (discriminate || assumption).
    reflexivity.
Qed.

(** X1. Parsing two scripts written one after the other, separated by a
    line break, gives the dialogue of the first followed by the dialogue of
    the second, and the speakers of both. *)
Theorem parse_concatenation {T : Type} `{PySet T} (first second : string) :
  fst (parse_dialogue_file (first ++ nl ++ second))
  = (fst (parse_dialogue_file first) ++ fst (parse_dialogue_file second))%list
  /\ forall x, x ∈ snd (parse_dialogue_file (first ++ nl ++ second))
               <-> x ∈ snd (parse_dialogue_file first)
                   \/ x ∈ snd (parse_dialogue_file second).
Proof.
  assert (Hd : dialogue_of (first ++ nl ++ second)
               = (dialogue_of first ++ dialogue_of second)%list).
  { unfold dialogue_of.
    change (first ++ nl ++ second) with (first ++ String Chars.newline second).
    rewrite split_app_sep, omap_app. reflexivity. }
  split.
  - rewrite !parse_dialogue. exact Hd.
  - intros x. rewrite !parse_characters, Hd, fmap_app, elem_of_app. reflexivity.
Qed.

Lemma span (p : ascii -> bool) (s : string) :
  exists a b, s = a ++ b /\ Str.all p a = true /\ Str.head_is p b = false.
Proof.
  induction s as [|c s (a & b & -> & Ha & Hb)].
  - exists "", "". auto.
  - destruct (p c) eqn:Hc.
    + exists (String c a), b. simpl. rewrite Hc, Ha. auto.
    + exists "", (String c (a ++ b)). simpl. auto.
Qed.

Lemma last_is_app_r (p : ascii -> bool) (s t : string) :
  Str.nonempty t = true -> Str.last_is p (s ++ t) = Str.last_is p t.
Proof.
  intros Ht. induction s as [|c s IH]; [reflexivity|].
  rewrite app_cons. destruct (s ++ t) as [|d u] eqn:E.
  - destruct s; [|discriminate]. rewrite app_empty_l in E. subst t. discriminate.
  - exact IH.
Qed.

Lemma last_is_spaces (ws : string) :
  Str.all Chars.isspace ws = true ->
  Str.last_is (fun c => negb (Chars.isspace c)) ws = false.
Proof.
  induction ws as [|c ws IH]; [reflexivity|].
  simpl. rewrite andb_true_iff. intros [Hc Hws].
  destruct ws as [|d ws]; [rewrite Hc; reflexivity|apply IH, Hws].
Qed.

Lemma all_lstrip (p : ascii -> bool) (s : string) :
  Str.all p s = true -> Str.all p (Str.lstrip s) = true.
Proof.
  induction s as [|c s IH]; [trivial|]. intros Hall. simpl.
  destruct (Chars.isspace c); [|exact Hall].
  simpl in Hall. apply andb_true_iff in Hall as [_ Hs]. auto.
Qed.

Lemma all_rstrip (p : ascii -> bool) (s : string) :
  Str.all p s = true -> Str.all p (Str.rstrip s) = true.
Proof.
  induction s as [|c s IH]; [trivial|]. intros Hall. simpl in *.
  apply andb_true_iff in Hall as [Hc Hs]. specialize (IH Hs).
  destruct (Str.rstrip s) as [|d r].
  - destruct (Chars.isspace c); [reflexivity|]. simpl. rewrite Hc. reflexivity.
  - simpl in *. rewrite Hc. exact IH.
Qed.

(** A stripped string is empty or has no blank at either end. *)
Lemma rstrip_last (s : string) :
  Str.rstrip s = ""
  \/ Str.last_is (fun c => negb (Chars.isspace c)) (Str.rstrip s) = true.
Proof.
  induction s as [|c s IH]; [left; reflexivity|]. simpl.
  destruct (Str.rstrip s) as [|d r] eqn:E.
  - destruct (Chars.isspace c) eqn:Hc; [left; reflexivity|].
    right. simpl. rewrite Hc. reflexivity.
  - right. destruct IH as [IH|IH]; [discriminate|]. exact IH.
Qed.

Lemma strip_last (s : string) :
  Str.strip s = ""
  \/ Str.last_is (fun c => negb (Chars.isspace c)) (Str.strip s) = true.
Proof. apply rstrip_last. Qed.

(** On a stripped one-line string a match takes the whole string: speaker,
    colon, blanks, and a text that runs to the end with no blank at either
    end. *)
Lemma dialogue_match_stripped (s character text : string) :
  Str.all Chars.isdot s = true ->
  Str.last_is (fun c => negb (Chars.isspace c)) s = true ->
  Re.dialogue_match s = Some (character, text) ->
  exists ws,
    s = character ++ ":" ++ ws ++ text
    /\ Str.all Chars.isspace ws = true
    /\ wf_line (character, text) = true.
Proof.
  intros Hdot Hlast M. pose proof M as M'.
  apply dialogue_match_sound in M' as (ws0 & tail & E & Hc & Hne & _ & _ & Htne).
  destruct (span Chars.isspace (ws0 ++ text ++ tail)) as (ws & t' & Erest & Hws & Hhead).
  assert (Es : s = character ++ ":" ++ ws ++ t').
  { rewrite E. change (":" ++ ws0 ++ text ++ tail) with (String ":" (ws0 ++ text ++ tail)).
    rewrite Erest. reflexivity. }
  assert (Hdot' : Str.all Chars.isdot t' = true).
  { rewrite Es in Hdot. rewrite !all_app in Hdot.
    do 3 (apply andb_true_iff in Hdot as [_ Hdot]). exact Hdot. }
  destruct t' as [|d t'].
  - exfalso. rewrite app_empty_r in Erest, Es.
    assert (Hwne : Str.nonempty ws = true).
    { rewrite <- Erest. destruct ws0; [|reflexivity]. rewrite app_empty_l.
      destruct text; [discriminate|reflexivity]. }
    rewrite Es in Hlast.
    rewrite (last_is_app_r _ character), (last_is_app_r _ ":" ws) in Hlast
      by (assumption || reflexivity).
    rewrite (last_is_spaces _ Hws) in Hlast. discriminate.
  - pose proof (dialogue_match_shape character ws (String d t')
                  Hc Hne Hws Hdot' eq_refl Hhead) as M2.
    rewrite <- Es, M in M2. injection M2 as ->.
    exists ws. split; [exact Es|]. split; [exact Hws|].
    unfold wf_line. simpl fst. simpl snd.
    rewrite Hc, Hne, Hdot', Hhead.
    rewrite Es in Hlast.
    rewrite (last_is_app_r _ character), (last_is_app_r _ ":"),
      (last_is_app_r _ ws) in Hlast
      by (reflexivity || (destruct ws; reflexivity)).
    rewrite Hlast. reflexivity.
Qed.

(** The dialogue line of a line of a file. *)
Lemma parsed_line_shape (content line character text : string) :
  line ∈ Str.split Chars.newline content ->
  Re.dialogue_match (Str.strip line) = Some (character, text) ->
  exists ws,
    Str.strip line = character ++ ":" ++ ws ++ text
    /\ Str.all Chars.isspace ws = true
    /\ wf_line (character, text) = true.
Proof.
  intros Hin M. apply dialogue_match_stripped; [| |exact M].
  - apply all_rstrip, all_lstrip. apply (split_no_sep _ _ _ Hin).
  - destruct (strip_last line) as [E|Hl]; [|exact Hl].
    rewrite E in M. discriminate.
Qed.

(** X2. Every dialogue line that parsing returns comes from a line of the
    file whose stripped form is exactly speaker, colon, blanks, text; the
    speaker is a non-empty run of word characters, and the text is
    non-empty, on one line, with no blank at its start or end. *)
Theorem parsed_lines_wellformed {T : Type} `{PySet T}
    (content character text : string) :
  (character, text) ∈ fst (parse_dialogue_file content) ->
  wf_line (character, text) = true
  /\ exists line ws,
       line ∈ Str.split Chars.newline content
       /\ Str.strip line = character ++ ":" ++ ws ++ text
       /\ Str.all Chars.isspace ws = true.
Proof.
  rewrite parse_dialogue. unfold dialogue_of. intros Hin.
  apply list_elem_of_omap in Hin as (line & Hline & M).
  destruct (parsed_line_shape content line character text Hline M)
    as (ws & Es & Hws & Hwf).
  split; [exact Hwf|]. exists line, ws. auto.
Qed.

(** [parsed_lines_wellformed] on a concrete input. *)
Lemma parsed_lines_wellformed_witness :
  wf_line ("Al", "yo  there") = true
  /\ exists line ws,
       line ∈ Str.split Chars.newline ("junk" ++ nl ++ "  Al:   yo  there  ")
       /\ Str.strip line = "Al" ++ ":" ++ ws ++ "yo  there"
       /\ Str.all Chars.isspace ws = true.
Proof.
  refine (parsed_lines_wellformed (T:=gset string)
            ("junk" ++ nl ++ "  Al:   yo  there  ") "Al" "yo  there" _).
  vm_compute. left.
Defined.

Lemma isword_isdot (c : ascii) : Chars.isword c = true -> Chars.isdot c = true.
Proof.
  destruct c as [[] [] [] [] [] [] [] []]; vm_compute; congruence.
Qed.

Lemma wf_line_parts (ct : string * string) :
  wf_line ct = true ->
  Str.all Chars.isword (fst ct) = true /\ Str.nonempty (fst ct) = true
  /\ Str.all Chars.isdot (snd ct) = true
  /\ Str.head_is Chars.isspace (snd ct) = false
  /\ Str.last_is (fun c => negb (Chars.isspace c)) (snd ct) = true.
Proof.
  unfold wf_line. rewrite !andb_true_iff, negb_true_iff. tauto.
Qed.

(** A rendered well-formed line parses back to itself. *)
Lemma parse_render_line (ct : string * string) :
  wf_line ct = true ->
  Re.dialogue_match (Str.strip (render_line ct)) = Some ct.
Proof.
  intros Hwf. apply wf_line_parts in Hwf as (Hc & Hne & Hdot & Hhead & Hlast).
  destruct ct as [c t]. simpl in *. unfold render_line. simpl fst. simpl snd.
  assert (Htne : Str.nonempty t = true) by (destruct t; [discriminate|reflexivity]).
  assert (Hstrip : Str.strip (c ++ ": " ++ t) = c ++ ": " ++ t).
  { pose proof (strip_body "" (c ++ ": " ++ t) "") as Hs.
    rewrite app_empty_l, app_empty_r in Hs. apply Hs; [reflexivity..| |].
    - destruct c as [|a c]; [discriminate|]. simpl in Hc.
      apply andb_true_iff in Hc as [Ha _]. rewrite app_cons. simpl.
      apply isword_not_space, Ha.
    - rewrite (last_is_app_r _ c), (last_is_app_r _ ": ") by (assumption || reflexivity).
      exact Hlast. }
  rewrite Hstrip.
  apply (dialogue_match_shape c " " t); auto.
Qed.

Lemma render_line_one_line (ct : string * string) :
  wf_line ct = true -> Str.mem Chars.newline (render_line ct) = false.
Proof.
  intros Hwf. apply wf_line_parts in Hwf as (Hc & _ & Hdot & _).
  apply mem_false_all. change (fun c => negb (Ascii.eqb c Chars.newline)) with Chars.isdot.
  unfold render_line. rewrite !all_app, Hdot.
  rewrite (all_impl _ _ _ isword_isdot Hc). reflexivity.
Qed.

Lemma mem_app (x : ascii) (s t : string) :
  Str.mem x (s ++ t) = Str.mem x s || Str.mem x t.
Proof.
  induction s as [|c s IH]; [reflexivity|].
  rewrite app_cons. simpl. rewrite IH. apply orb_assoc.
Qed.

(** Reading leaves a text without carriage returns as it is. *)
Lemma universal_newlines_plain (s : string) :
  Str.mem carriage_return s = false -> universal_newlines s = s.
Proof.
  induction s as [|c s IH]; [reflexivity|].
  simpl. intros Hmem. apply orb_false_iff in Hmem as [Hc Hs].
  rewrite Hc, (IH Hs). reflexivity.
Qed.

Lemma isword_not_cr (c : ascii) :
  Chars.isword c = true -> Ascii.eqb c carriage_return = false.
Proof.
  destruct c as [[] [] [] [] [] [] [] []]; vm_compute; congruence.
Qed.

Lemma render_no_cr (dialogue : list (string * string)) :
  Forall (fun ct => wf_line ct = true) dialogue ->
  Forall (fun ct => Str.mem carriage_return (snd ct) = false) dialogue ->
  Str.mem carriage_return (render dialogue) = false.
Proof.
  unfold render. intros Hwf Hcr.
  induction Hwf as [|[c t] rest Hct Hrest IH]; [reflexivity|].
  apply Forall_cons in Hcr as [Ht Hcr]. specialize (IH Hcr).
  assert (Hline : Str.mem carriage_return (render_line (c, t)) = false).
  { unfold render_line. simpl fst. simpl snd.
    rewrite !mem_app. simpl in Ht. rewrite Ht.
    apply wf_line_parts in Hct as (Hc & _). simpl in Hc.
    assert (Hcc : Str.mem carriage_return c = false).
    { apply mem_false_all. revert Hc. apply all_impl.
      intros a Ha. rewrite (isword_not_cr a Ha). reflexivity. }
    rewrite Hcc. reflexivity. }
  destruct rest as [|ct' rest'].
  - exact Hline.
  - change (Str.join nl (map render_line ((c, t) :: ct' :: rest')))
      with (render_line (c, t) ++ nl ++ Str.join nl (map render_line (ct' :: rest'))).
    rewrite !mem_app, Hline, IH. reflexivity.
Qed.

(** X3. Writing a dialogue out as lines "speaker: text", reading that file
    back in text mode and parsing what was read gives the dialogue back,
    line for line, whenever its lines are of the form the parser produces
    and no text holds a carriage return, which reading would turn into a
    line break. *)
Theorem parse_render_roundtrip {T : Type} `{PySet T} (dialogue : list (string * string)) :
  Forall (fun ct => wf_line ct = true) dialogue ->
  Forall (fun ct => Str.mem carriage_return (snd ct) = false) dialogue ->
  universal_newlines (render dialogue) = render dialogue
  /\ fst (parse_dialogue_file (universal_newlines (render dialogue))) = dialogue.
Proof.
  intros Hwf Hcr.
  assert (Hread : universal_newlines (render dialogue) = render dialogue)
    by (apply universal_newlines_plain, render_no_cr; assumption).
  split; [exact Hread|]. rewrite Hread.
  rewrite parse_dialogue. unfold dialogue_of, render.
  assert (Hlines : omap (fun line => Re.dialogue_match (Str.strip line))
                     (map render_line dialogue) = dialogue).
  { clear Hcr Hread. induction Hwf as [|x l Hx Hl IH]; [reflexivity|].
    simpl. rewrite (parse_render_line x Hx). f_equal. exact IH. }
  destruct dialogue as [|ct rest]; [reflexivity|].
  change nl with (String Chars.newline "").
  rewrite split_join; [exact Hlines|discriminate|].
  apply Forall_fmap. apply (Forall_impl _ _ _ Hwf).
  intros x Hx. apply render_line_one_line, Hx.
Qed.

(** [parse_render_roundtrip] on a concrete input. *)
Lemma parse_render_roundtrip_witness :
  fst (parse_dialogue_file (T:=gset string)
         (universal_newlines
            (render [("Ann", "Hello, Bob: how are you?"); ("Bob", "Fine."); ("Ann", "Good.")])))
  = [("Ann", "Hello, Bob: how are you?"); ("Bob", "Fine."); ("Ann", "Good.")].
Proof.
  refine (proj2 (parse_render_roundtrip (T:=gset string) _ _ _)).
  - repeat constructor.
  - repeat constructor.
Defined.

(** A carriage return inside a text does not survive the reading: the
    line is cut in two there. *)
Example carriage_return_cuts_line :
  fst (parse_dialogue_file (T:=gset string)
         (universal_newlines (render [("Ann", String "x" (String carriage_return "y"))])))
  = [("Ann", "x")].
Proof. vm_compute. reflexivity. Qed.

(** ** Voice assignment *)

Lemma assign_from_returns (available : list string) (characters : list string) :
  available <> [] ->
  forall (i : nat) (voice_map : dict),
  exists voice_map', assign_from available i characters voice_map = Return voice_map'.
Proof.
  intros Hav. induction characters as [|c rest IH]; intros i voice_map.
  - exists voice_map. reflexivity.
  - rewrite assign_from_cons.
    destruct (length available) as [|n] eqn:Hlen.
    { destruct available; [contradiction|discriminate]. }
    destruct (nth_error available (i mod S n)) as [voice|] eqn:Hv; [apply IH|].
    apply nth_error_None in Hv. pose proof (Nat.mod_upper_bound i (S n)). lia.
Qed.

(** X4. Assigning voices fails in one case only: at least one speaker and
    an empty catalog, where it raises ZeroDivisionError. For every other
    speaker list, repeats included, it returns a voice map. *)
Theorem assign_fails_only_on_empty_catalog (characters available_voices : list string) :
  (assign_voices_to_characters characters available_voices = Raise ZeroDivisionError
   <-> characters <> [] /\ available_voices = [])
  /\ ((exists voice_map,
         assign_voices_to_characters characters available_voices = Return voice_map)
      <-> characters = [] \/ available_voices <> []).
Proof.
  unfold assign_voices_to_characters.
  destruct characters as [|c rest].
  { split; split.
    - discriminate.
    - intros [Hne _]. contradiction.
    - auto.
    - intros _. exists []. reflexivity. }
  destruct available_voices as [|v available].
  { rewrite assign_from_cons. simpl. split; split.
    - intros _. split; [discriminate|reflexivity].
    - reflexivity.
    - intros [vm Hvm]. discriminate.
    - intros [Hc|Hv]; [discriminate|contradiction]. }
  destruct (assign_from_returns (v :: available) (c :: rest) ltac:(discriminate) 0 [])
    as [vm Hvm].
  rewrite Hvm. split; split.
  - discriminate.
  - intros [_ Hv]. discriminate.
  - intros _. right. discriminate.
  - intros _. exists vm. reflexivity.
Qed.

Lemma dict_keys_set_new (d : dict) (k v : string) :
  k ∉ dict_keys d -> dict_keys (dict_set d k v) = (dict_keys d ++ [k])%list.
Proof.
  induction d as [|[k0 v0] d IH]; simpl; [reflexivity|].
  intros Hk. apply not_elem_of_cons in Hk as [Hne Hk].
  destruct (String.eqb_spec k0 k) as [->|_]; [contradiction|].
  simpl. rewrite (IH Hk). reflexivity.
Qed.

Lemma dict_get_value (d : dict) (k v : string) :
  dict_get d k = Some v -> v ∈ dict_values d.
Proof.
  induction d as [|[k0 v0] d IH]; simpl; [discriminate|].
  destruct (String.eqb k0 k).
  - intros [= ->]. left.
  - intros Hd. right. auto.
Qed.

Lemma dict_values_set (d : dict) (k v x : string) :
  x ∈ dict_values (dict_set d k v) -> x = v \/ x ∈ dict_values d.
Proof.
  induction d as [|[k0 v0] d IH]; simpl.
  - intros Hx. apply elem_of_cons in Hx as [->|Hx]; auto.
  - destruct (String.eqb k0 k); simpl; intros Hx;
      apply elem_of_cons in Hx as [->|Hx]; auto.
    + right. right. exact Hx.
    + right. left.
    + destruct (IH Hx) as [->|Hd]; auto. right. right. exact Hd.
Qed.

(** The keys and the values the loop leaves in the map. *)
Lemma assign_from_keys_values (available : list string) (characters : list string) :
  NoDup characters ->
  forall (i : nat) (voice_map voice_map' : dict),
    (forall c, c ∈ characters -> c ∉ dict_keys voice_map) ->
    assign_from available i characters voice_map = Return voice_map' ->
    dict_keys voice_map' = (dict_keys voice_map ++ characters)%list
    /\ forall x, x ∈ dict_values voice_map' ->
                 x ∈ dict_values voice_map \/ x ∈ available.
Proof.
  induction characters as [|c rest IH]; intros Hnd i vm vm' Hfresh.
  - simpl. intros [= <-]. rewrite app_nil_r. auto.
  - apply NoDup_cons in Hnd as [Hc Hrest]. rewrite assign_from_cons.
    destruct (length available) as [|n]; [discriminate|].
    destruct (nth_error available (i mod S n)) as [voice|] eqn:Hv; [|discriminate].
    intros Hrun.
    assert (Hcfresh : c ∉ dict_keys vm) by (apply Hfresh; left).
    apply IH in Hrun as [Hkeys Hvals]; [|exact Hrest|].
    + split.
      * rewrite Hkeys, (dict_keys_set_new _ _ _ Hcfresh), <- app_assoc. reflexivity.
      * intros x Hx. destruct (Hvals x Hx) as [Hd|Ha]; [|auto].
        apply dict_values_set in Hd as [->|Hd]; [|auto].
        right. apply list_elem_of_In. exact (nth_error_In _ _ Hv).
    + intros c' Hc'. rewrite (dict_keys_set_new _ _ _ Hcfresh), elem_of_app.
      intros [Hin|Hin].
      * apply (Hfresh c'); [right; exact Hc'|exact Hin].
      * apply list_elem_of_singleton in Hin as ->. contradiction.
Qed.

(** X5. For distinct speakers, the voice map lists the speakers in the
    order of the speaker list, so the printed assignment follows that
    order, and every voice in it is a voice of the catalog. *)
Theorem assign_keys_in_order (characters available_voices : list string)
    (voice_map : dict) :
  NoDup characters ->
  assign_voices_to_characters characters available_voices = Return voice_map ->
  dict_keys voice_map = characters
  /\ (forall c v, dict_get voice_map c = Some v -> v ∈ available_voices)
  /\ length voice_map = length characters.
Proof.
  intros Hnd Hrun. unfold assign_voices_to_characters in Hrun.
  apply assign_from_keys_values in Hrun as [Hkeys Hvals]; [|exact Hnd|].
  - simpl in Hkeys. split; [exact Hkeys|]. split.
    + intros c v Hget. apply dict_get_value in Hget.
      destruct (Hvals v Hget) as [Hnil|Ha]; [|exact Ha].
      apply elem_of_nil in Hnil as [].
    + rewrite <- Hkeys. unfold dict_keys. rewrite length_map. reflexivity.
  - intros c _ Hin. apply elem_of_nil in Hin as [].
Qed.

(** [assign_keys_in_order] on a concrete input. *)
Lemma assign_keys_in_order_witness :
  dict_keys [("Cy", "v0"); ("Ann", "v1"); ("Bob", "v0")] = ["Cy"; "Ann"; "Bob"].
Proof.
  refine (proj1 (assign_keys_in_order ["Cy"; "Ann"; "Bob"] ["v0"; "v1"]
                   [("Cy", "v0"); ("Ann", "v1"); ("Bob", "v0")] _ _)).
  - apply (bool_decide_unpack _). vm_compute. exact I.
  - reflexivity.
Defined.

(** X6. With distinct speakers and a catalog of distinct voices at least as
    long as the speaker list, no two speakers share a voice. With a shorter
    catalog the voices repeat: the speakers at indices i and i + V have the
    same voice. *)
Theorem assign_distinct_when_enough (characters available_voices : list string)
    (voice_map : dict) :
  NoDup characters ->
  assign_voices_to_characters characters available_voices = Return voice_map ->
  (NoDup available_voices -> length characters <= length available_voices ->
   forall c1 c2 v, c1 ∈ characters -> c2 ∈ characters ->
     dict_get voice_map c1 = Some v -> dict_get voice_map c2 = Some v -> c1 = c2)
  /\ (forall i c1 c2,
        nth_error characters i = Some c1 ->
        nth_error characters (i + length available_voices) = Some c2 ->
        dict_get voice_map c1 = dict_get voice_map c2).
Proof.
  intros Hnd Hrun.
  destruct characters as [|c0 rest].
  { split; [intros _ _ c1 c2 v Hc1; apply elem_of_nil in Hc1 as []|].
    intros [|i] c1 c2; discriminate. }
  assert (Hav : available_voices <> []).
  { intros ->. unfold assign_voices_to_characters in Hrun.
    rewrite assign_from_cons in Hrun. discriminate. }
  destruct (assign_from_spec available_voices (c0 :: rest) Hav Hnd 0 [])
    as (vm & Hrun' & Hget & _).
  unfold assign_voices_to_characters in Hrun. rewrite Hrun' in Hrun.
  injection Hrun as ->. split.
  - intros Hndv Hlen c1 c2 v Hc1 Hc2 H1 H2.
    apply list_elem_of_In, In_nth_error in Hc1 as [j1 Hj1].
    apply list_elem_of_In, In_nth_error in Hc2 as [j2 Hj2].
    assert (Hlt1 : j1 < length (c0 :: rest)) by (apply nth_error_Some; congruence).
    assert (Hlt2 : j2 < length (c0 :: rest)) by (apply nth_error_Some; congruence).
    rewrite (Hget j1 c1 Hj1) in H1. rewrite (Hget j2 c2 Hj2) in H2.
    simpl (0 + _) in H1, H2.
    rewrite Nat.mod_small in H1 by lia. rewrite Nat.mod_small in H2 by lia.
    assert (j1 = j2).
    { apply NoDup_ListNoDup in Hndv.
      apply (proj1 (List.NoDup_nth_error available_voices)); [exact Hndv|lia|congruence]. }
    subst j2. congruence.
  - intros i c1 c2 H1 H2.
    rewrite (Hget i c1 H1), (Hget _ c2 H2). simpl (0 + _).
    replace (i + length available_voices) with (i + 1 * length available_voices) by lia.
    rewrite Nat.Div0.mod_add. reflexivity.
Qed.

(** [assign_distinct_when_enough] on a concrete input. *)
Lemma assign_distinct_when_enough_witness :
  dict_get [("Ann", "v0"); ("Bob", "v1"); ("Cy", "v0")] "Ann"
  = dict_get [("Ann", "v0"); ("Bob", "v1"); ("Cy", "v0")] "Cy".
Proof.
  refine (proj2 (assign_distinct_when_enough ["Ann"; "Bob"; "Cy"] ["v0"; "v1"]
                   [("Ann", "v0"); ("Bob", "v1"); ("Cy", "v0")] _ _) 0 "Ann" "Cy" _ _).
  - apply (bool_decide_unpack _). vm_compute. exact I.
  - reflexivity.
  - reflexivity.
  - reflexivity.
Defined.

(** ** Assembly *)

Lemma run_bind_cons {A B : Type} (e : event) (r : run A) (f : A -> run B) :
  ((fst r, e :: snd r) ≫= f) = (fst (r ≫= f), e :: snd (r ≫= f)).
Proof. destruct r as [[a|x|n] t]; reflexivity. Qed.

(** Assembling a dialogue in two parts: the second part continues from the
    conversation and the line count the first part ends with. *)
Lemma conversation_from_app (env : Env) (voice_map : dict) (pause_mean pause_stdev : Z)
      (first second : list (string * string)) :
  forall (i : nat) (conversation : AudioSegment),
    conversation_from env voice_map pause_mean pause_stdev i (first ++ second)%list
                      conversation
    = (conversation_from env voice_map pause_mean pause_stdev i first conversation
       ≫= conversation_from env voice_map pause_mean pause_stdev
            (i + length first) second).
Proof.
  induction first as [|[c text] rest IH]; intros i conv.
  - simpl app. change (conversation_from env voice_map pause_mean pause_stdev i [] conv)
      with (Return conv, @nil event).
    rewrite run_bind_pure. simpl length. rewrite Nat.add_0_r. reflexivity.
  - change (((c, text) :: rest) ++ second)%list with ((c, text) :: (rest ++ second))%list.
    rewrite !conversation_from_cons.
    destruct (dict_get voice_map c) as [voice|]; [|reflexivity].
    destruct (pause_duration pause_mean pause_stdev (gauss env i)) as [p| |];
      [|reflexivity..].
    cbv zeta. rewrite IH, run_bind_cons.
    replace (S i + length rest) with (i + length ((c, text) :: rest)) by (simpl; lia).
    reflexivity.
Qed.

(** X7. Assembling a dialogue made of two parts is assembling the first
    part and then continuing with the second from where the first ended:
    same conversation so far, line numbering carried on. A failure in the
    first part ends the run there. *)
Theorem assembly_in_two_parts (env : Env) (voice_map : dict) (pause_mean pause_stdev : Z)
    (first second : list (string * string)) :
  create_conversation_audio env (first ++ second)%list voice_map pause_mean pause_stdev
  = (create_conversation_audio env first voice_map pause_mean pause_stdev
     ≫= conversation_from env voice_map pause_mean pause_stdev (length first) second).
Proof.
  unfold create_conversation_audio. rewrite conversation_from_app. reflexivity.
Qed.

Lemma requests_cons_some (voice_map : dict) (c text voice : string)
      (rest : list (string * string)) :
  dict_get voice_map c = Some voice ->
  requests voice_map ((c, text) :: rest) = Generate text voice :: requests voice_map rest.
Proof. intros Hv. unfold requests. simpl. rewrite Hv. reflexivity. Qed.

(** The trace of the loop is made of synthesis requests only: those of the
    lines it got through, in order. *)
Lemma conversation_from_trace (env : Env) (voice_map : dict) (pause_mean pause_stdev : Z)
      (dialogue : list (string * string)) :
  forall (i : nat) (conversation : AudioSegment),
    let r := conversation_from env voice_map pause_mean pause_stdev i dialogue
               conversation in
    snd r `prefix_of` requests voice_map dialogue
    /\ (forall conversation', fst r = Return conversation' ->
          snd r = requests voice_map dialogue
          /\ length (snd r) = length dialogue).
Proof.
  induction dialogue as [|[c text] rest IH]; intros i conv; cbv zeta.
  - split; [apply prefix_nil|]. intros conv' _. auto.
  - rewrite conversation_from_cons.
    destruct (dict_get voice_map c) as [voice|] eqn:Hv.
    2:{ split; [apply prefix_nil|]. discriminate. }
    rewrite (requests_cons_some _ _ _ _ _ Hv).
    destruct (pause_duration pause_mean pause_stdev (gauss env i)) as [p| |].
    + cbv zeta. simpl fst. simpl snd.
      destruct (IH (S i) (conv ++ [Speech text voice (synth_ms env i text voice);
                                    Silence p])%list) as [Hpre Hret].
      split; [apply prefix_cons, Hpre|].
      intros conv' Hrun. destruct (Hret conv' Hrun) as [-> Hlen].
      split; [reflexivity|]. simpl. rewrite Hlen. reflexivity.
    + split; [apply prefix_cons, prefix_nil|]. discriminate.
    + split; [apply prefix_cons, prefix_nil|]. discriminate.
Qed.

(** X8. The events of an assembly are synthesis requests only, in dialogue
    order and each with the voice mapped to the line's speaker. A
    successful assembly has made exactly one request per dialogue line; a
    failed one has made the requests of the lines up to the failure. *)
Theorem assembly_requests (env : Env) (dialogue : list (string * string))
    (voice_map : dict) (pause_mean pause_stdev : Z) :
  let r := create_conversation_audio env dialogue voice_map pause_mean pause_stdev in
  snd r `prefix_of` requests voice_map dialogue
  /\ (forall conversation, fst r = Return conversation ->
        snd r = requests voice_map dialogue
        /\ length (snd r) = length dialogue).
Proof. apply conversation_from_trace. Qed.

(** [assembly_requests] on a concrete input. *)
Lemma assembly_requests_witness :
  snd (create_conversation_audio two_lines_env two_lines
         [("Ann", "v0"); ("Bob", "v1")] 200 0)
  = requests [("Ann", "v0"); ("Bob", "v1")] two_lines
  /\ length (snd (create_conversation_audio two_lines_env two_lines
                    [("Ann", "v0"); ("Bob", "v1")] 200 0)) = length two_lines.
Proof.
  refine (proj2 (assembly_requests two_lines_env two_lines
                   [("Ann", "v0"); ("Bob", "v1")] 200 0) _ _).
  vm_compute. reflexivity.
Defined.



(** ** Whole runs, continued *)

Lemma print_assignments (voice_map : dict) :
  foldr (fun kv k => print (fst kv ++ ": " ++ snd kv);; k) (mret tt) voice_map
  = (Return tt, assignment_lines voice_map).
Proof.
  induction voice_map as [|kv rest IH]; [reflexivity|].
  change (print (fst kv ++ ": " ++ snd kv)
          ≫= (fun _ => foldr (fun kv k => print (fst kv ++ ": " ++ snd kv);; k)
                         (mret tt) rest)
          = (Return tt, assignment_lines (kv :: rest))).
  rewrite IH. reflexivity.
Qed.

(** The rest of [main] after the voice map, by the outcome of the assembly. *)
Lemma synthesize_and_export_run (env : Env) (args : Args)
      (dialogue : list (string * string)) (voice_map : dict) :
  let r := create_conversation_audio env dialogue voice_map
             (pause_mean args) (pause_stdev args) in
  let output_file := output_name (input_file args) in
  synthesize_and_export env args dialogue voice_map
  = match fst r with
    | Return conversation =>
        (Return tt,
         Print "Voice assignments:"
         :: (assignment_lines voice_map ++ snd r
             ++ [Export output_file conversation;
                 Print (nl ++ "Conversation audio generated and saved as '"
                        ++ output_file ++ "'")])%list)
    | Raise e =>
        (Raise e, Print "Voice assignments:" :: (assignment_lines voice_map ++ snd r)%list)
    | SysExit n =>
        (SysExit n, Print "Voice assignments:" :: (assignment_lines voice_map ++ snd r)%list)
    end.
Proof.
  cbv zeta. unfold synthesize_and_export. rewrite print_assignments.
  destruct (create_conversation_audio env dialogue voice_map
              (pause_mean args) (pause_stdev args)) as [[conv|e|n] t]; reflexivity.
Qed.

Lemma exported_app (t1 t2 : list event) :
  exported (t1 ++ t2) = (exported t1 ++ exported t2)%list.
Proof. apply omap_app. Qed.

Lemma exported_assignment_lines (voice_map : dict) :
  exported (assignment_lines voice_map) = [].
Proof. induction voice_map as [|kv rest IH]; [reflexivity|exact IH]. Qed.

Lemma exported_requests (voice_map : dict) (dialogue : list (string * string)) :
  exported (requests voice_map dialogue) = [].
Proof.
  induction dialogue as [|[c t] rest IH]; [reflexivity|].
  unfold requests in *. simpl. destruct (dict_get voice_map c); [exact IH|exact IH].
Qed.

Lemma exported_prefix (t1 t2 : list event) :
  t1 `prefix_of` t2 -> exported t2 = [] -> exported t1 = [].
Proof.
  intros [k ->]. rewrite exported_app. intros Hnil.
  apply app_eq_nil in Hnil as [Hnil _]. exact Hnil.
Qed.

Lemma exported_assembly (env : Env) (dialogue : list (string * string))
      (voice_map : dict) (pause_mean pause_stdev : Z) :
  exported (snd (create_conversation_audio env dialogue voice_map pause_mean pause_stdev))
  = [].
Proof.
  destruct (conversation_from_trace env voice_map pause_mean pause_stdev dialogue
              0 empty_segment) as [Hpre _].
  exact (exported_prefix _ _ Hpre (exported_requests _ _)).
Qed.

Lemma assembly_trace_aux (env : Env) (dialogue : list (string * string))
      (voice_map : dict) (pause_mean pause_stdev : Z) (conversation : AudioSegment) :
  fst (create_conversation_audio env dialogue voice_map pause_mean pause_stdev)
  = Return conversation ->
  snd (create_conversation_audio env dialogue voice_map pause_mean pause_stdev)
  = requests voice_map dialogue.
Proof.
  intros Hrun.
  destruct (conversation_from_trace env voice_map pause_mean pause_stdev dialogue
              0 empty_segment) as [_ Hret].
  exact (proj1 (Hret conversation Hrun)).
Qed.

Section RunCases.
Context {T : Type} `{PySet T}.

(** How building the voice map can end: with a map, with an exception, or
    with the exit after the two diagnostic lines; only the last prints. *)
Lemma resolve_cases (env : Env) (args : Args) (characters : list string) :
  (exists voice_map, resolve_voice_map env args characters = (Return voice_map, []))
  \/ (exists e, resolve_voice_map env args characters = (Raise e, []))
  \/ (exists l1 l2, resolve_voice_map env args characters
                    = (SysExit 1, [Print l1; Print l2])).
Proof.
  destruct (speaker_map_given args) eqn:Hmode.
  - rewrite (resolve_custom env args characters Hmode). cbv zeta.
    destruct (truthy _); [right; right; eauto|left; eauto].
  - rewrite (resolve_auto env args characters Hmode).
    destruct (assign_voices_to_characters characters (provider_voices env)) as [vm|e|n] eqn:E.
    + left. eauto.
    + right. left. eauto.
    + exfalso. destruct characters as [|c rest]; [discriminate|].
      destruct (provider_voices env) as [|v av].
      * unfold assign_voices_to_characters in E. rewrite assign_from_cons in E.
        discriminate.
      * destruct (assign_from_returns (v :: av) (c :: rest) ltac:(discriminate) 0 [])
          as [vm Hvm].
        unfold assign_voices_to_characters in E. rewrite Hvm in E. discriminate.
Qed.

End RunCases.

(** X10. A run writes the output file only when it succeeds. A run that
    ends with an exception or with an exit has exported nothing; a run that
    ends normally has printed the assignment, then made one synthesis
    request per dialogue line, then exported the assembled conversation
    once, under the name derived from the input path, and last printed the
    closing message. *)
Theorem main_exports_only_on_success {T : Type} `{PySet T} (env : Env) (args : Args) :
  let dialogue := fst (parse_dialogue_file (file_content env)) in
  let characters := snd (parse_dialogue_file (file_content env)) in
  let output_file := output_name (input_file args) in
  (fst (main env args) <> Return tt -> exported (snd (main env args)) = [])
  /\ (fst (main env args) = Return tt ->
      exists voice_map conversation,
        resolve_voice_map env args characters = (Return voice_map, [])
        /\ create_conversation_audio env dialogue voice_map
             (pause_mean args) (pause_stdev args)
           = (Return conversation, requests voice_map dialogue)
        /\ snd (main env args)
           = Print "Voice assignments:"
             :: (assignment_lines voice_map ++ requests voice_map dialogue
                 ++ [Export output_file conversation;
                     Print (nl ++ "Conversation audio generated and saved as '"
                            ++ output_file ++ "'")])%list
        /\ exported (snd (main env args)) = [(output_file, conversation)]).
Proof.
  cbv zeta. rewrite main_unfold.
  destruct (resolve_cases env args (snd (parse_dialogue_file (file_content env))))
    as [[vm ->]|[[e ->]|(l1 & l2 & ->)]].
  - rewrite run_bind_pure, synthesize_and_export_run. cbv zeta.
    pose proof (exported_assembly env (fst (parse_dialogue_file (file_content env))) vm
                  (pause_mean args) (pause_stdev args)) as Hexp.
    pose proof (assembly_trace_aux env (fst (parse_dialogue_file (file_content env))) vm
                  (pause_mean args) (pause_stdev args)) as Htrace.
    destruct (create_conversation_audio env _ vm (pause_mean args) (pause_stdev args))
      as [[conv|e|n] t] eqn:E; simpl fst in *; simpl snd in *.
    + split; [intros Hne; contradiction|]. intros _.
      specialize (Htrace conv eq_refl). subst t.
      exists vm, conv. split; [reflexivity|]. split; [exact E|].
      split; [reflexivity|].
      change (exported (Print "Voice assignments:" :: ?l)) with (exported l).
      rewrite !exported_app, exported_assignment_lines, exported_requests. reflexivity.
    + split; [|discriminate]. intros _.
      change (exported (Print "Voice assignments:" :: ?l)) with (exported l).
      rewrite exported_app, exported_assignment_lines, Hexp. reflexivity.
    + split; [|discriminate]. intros _.
      change (exported (Print "Voice assignments:" :: ?l)) with (exported l).
      rewrite exported_app, exported_assignment_lines, Hexp. reflexivity.
  - rewrite run_bind_raise. split; [reflexivity|discriminate].
  - rewrite run_bind_exit. split; [reflexivity|discriminate].
Qed.

(** [main_exports_only_on_success] on a concrete input. *)
Lemma main_exports_only_on_success_witness :
  exported (snd (main (T:=gset string) (one_line_env [("Bob", "v0")] ["v0"; "v1"])
                   custom_args)) = [].
Proof.
  refine (proj1 (main_exports_only_on_success (T:=gset string)
                   (one_line_env [("Bob", "v0")] ["v0"; "v1"]) custom_args) _).
  vm_compute. discriminate.
Defined.

(** X11. A script without any matching line is not an error in
    auto-assignment mode, whatever the catalog, an empty one included:
    there are no speakers, the voice map is empty, no synthesis request is
    made, and an empty conversation is exported. *)
Theorem empty_dialogue_runs {T : Type} `{PySet T} (env : Env) (args : Args) :
  speaker_map_given args = false ->
  fst (parse_dialogue_file (file_content env)) = [] ->
  snd (parse_dialogue_file (file_content env)) = []
  /\ main env args
     = (Return tt,
        [Print "Voice assignments:";
         Export (output_name (input_file args)) [];
         Print (nl ++ "Conversation audio generated and saved as '"
                ++ output_name (input_file args) ++ "'")]).
Proof.
  intros Hauto Hempty.
  assert (Hchars : snd (parse_dialogue_file (file_content env)) = []).
  { destruct (snd (parse_dialogue_file (file_content env))) as [|c rest] eqn:E;
      [reflexivity|].
    assert (Hc : c ∈ snd (parse_dialogue_file (file_content env))) by (rewrite E; left).
    apply parse_characters in Hc. rewrite <- parse_dialogue, Hempty in Hc.
    apply elem_of_nil in Hc as []. }
  split; [exact Hchars|].
  rewrite main_unfold, (resolve_auto env args _ Hauto), Hchars, Hempty.
  reflexivity.
Qed.

(** [empty_dialogue_runs] on a concrete input. *)
Lemma empty_dialogue_runs_witness :
  main (T:=gset string)
       {| file_content := "Scene 1" ++ nl ++ nl ++ "(a long silence)";
          map_members := []; provider_voices := [];
          synth_ms := fun _ _ _ => 0%Z; gauss := fun _ => S754_zero false |}
       auto_args
  = (Return tt,
     [Print "Voice assignments:"; Export "script_output.wav" [];
      Print (nl ++ "Conversation audio generated and saved as 'script_output.wav'")]).
Proof.
  refine (proj2 (empty_dialogue_runs (T:=gset string) _ auto_args _ _));
    vm_compute; reflexivity.
Defined.

(** ** The output name *)

Lemma before_last_some (sep : ascii) (s p : string) :
  Str.before_last sep s = Some p ->
  exists ext, s = p ++ String sep ext /\ Str.mem sep ext = false.
Proof.
  revert p. induction s as [|c s IH]; intros p; simpl; [discriminate|].
  destruct (Str.before_last sep s) as [q|] eqn:E.
  - intros [= <-]. destruct (IH q eq_refl) as (ext & -> & Hext).
    exists ext. split; [reflexivity|exact Hext].
  - destruct (Ascii.eqb_spec c sep) as [->|]; [|discriminate].
    intros [= <-]. exists s. split; [reflexivity|].
    clear IH. induction s as [|d s IHs]; [reflexivity|]. simpl in *.
    destruct (Str.before_last sep s); [discriminate|].
    destruct (Ascii.eqb d sep); [discriminate|]. simpl. apply IHs. reflexivity.
Qed.

(** X12. For every input path the output name is a prefix of the path
    followed by "_output.wav", where what is cut off is either nothing or
    the last dot and the dot-free rest after it; the output name is never
    the input path itself, so the export cannot overwrite the script. *)
Theorem output_name_shape (path : string) :
  (exists stem rest,
      path = stem ++ rest
      /\ output_name path = stem ++ "_output.wav"
      /\ (rest = "" \/ exists ext, rest = "." ++ ext /\ Str.mem "." ext = false))
  /\ output_name path <> path.
Proof.
  unfold output_name, Str.rsplit1_head.
  destruct (Str.before_last "." path) as [stem|] eqn:E.
  - apply before_last_some in E as (ext & -> & Hext). split.
    + exists stem, ("." ++ ext). split; [reflexivity|]. split; [reflexivity|].
      right. exists ext. auto.
    + intros Heq. apply (inj (String.app stem)) in Heq. discriminate.
  - split.
    + exists path, "". rewrite app_empty_r. auto.
    + intros Heq. rewrite <- (app_empty_r path) in Heq at 2.
      apply (inj (String.app path)) in Heq. discriminate.
Qed.

(** ** Temporary files *)

Lemma of_int_no_exit (n k : Z) : F64.of_int n <> SysExit k.
Proof.
  unfold F64.of_int.
  destruct (binary_normalize F64.prec F64.emax n 0 false); discriminate.
Qed.

Lemma np_random_normal_no_exit (loc scale : Z) (z : spec_float) (k : Z) :
  np_random_normal loc scale z <> SysExit k.
Proof.
  unfold np_random_normal.
  destruct (F64.of_int loc) as [l|e1|k1] eqn:Hl; simpl; [|discriminate|].
  - destruct (F64.of_int scale) as [s|e2|k2] eqn:Hs; simpl; [|discriminate|].
    + destruct (F64.signbit s); discriminate.
    + intros _. exact (of_int_no_exit _ _ Hs).
  - intros _. exact (of_int_no_exit _ _ Hl).
Qed.

(** The pause computation returns or raises; it never exits. *)
Lemma pause_duration_no_exit (pause_mean pause_stdev : Z) (z : spec_float) (k : Z) :
  pause_duration pause_mean pause_stdev z <> SysExit k.
Proof.
  unfold pause_duration.
  destruct (np_random_normal pause_mean pause_stdev z) as [x|e|k1] eqn:Ex; simpl;
    [|discriminate|].
  - destruct (F64.to_int x) as [y|e|k2] eqn:Ey; simpl; [discriminate..|].
    destruct x; discriminate.
  - intros _. exact (np_random_normal_no_exit _ _ _ _ Ex).
Qed.

Section TempFiles.
Context `{TempNames}.

Lemma write_chunks (name : string) (audio : list string) (fs : gmap string string) :
  forall data,
    fold_left (fun fs chunk => alter (fun data => data ++ chunk) name fs)
              audio (<[name := data]> fs)
    = <[name := data ++ cat audio]> fs.
Proof.
  induction audio as [|chunk rest IH]; intros data; simpl.
  - rewrite app_empty_r. reflexivity.
  - rewrite alter_insert_eq, IH, app_assoc_str. reflexivity.
Qed.

(** The file [save_temp_audio] leaves holds the whole stream. *)
Lemma save_temp_audio_spec (audio : list string) (fs : gmap string string) :
  save_temp_audio audio fs = (mktemp (dom fs), <[mktemp (dom fs) := cat audio]> fs).
Proof. unfold save_temp_audio. rewrite write_chunks. reflexivity. Qed.

Lemma mktemp_unused (fs : gmap string string) : fs !! mktemp (dom fs) = None.
Proof. apply not_elem_of_dom, mktemp_fresh. Qed.

(** One iteration, with the file operations carried out. *)
Lemma conversation_files_cons (m : Media) (voice_map : dict) (pause_mean pause_stdev : Z)
      (i : nat) (c text : string) (rest : list (string * string))
      (conversation : AudioSegment) (fs : gmap string string) :
  conversation_files m voice_map pause_mean pause_stdev i ((c, text) :: rest)
                     conversation fs
  = match dict_get voice_map c with
    | None => (inr (PyExn (KeyError c)), [], fs)
    | Some voice =>
        let data := cat (audio_stream m i text voice) in
        match decode_mp3 m data with
        | None =>
            (inr CouldntDecodeError, [Generate text voice], <[mktemp (dom fs) := data]> fs)
        | Some ms =>
            match failure_of (pause_duration pause_mean pause_stdev (normal_draw m i)) with
            | inr f => (inr f, [Generate text voice], fs)
            | inl pause =>
                let r := conversation_files m voice_map pause_mean pause_stdev (S i) rest
                           (conversation ++ [Speech text voice ms; Silence pause])%list fs in
                (fst (fst r), Generate text voice :: snd (fst r), snd r)
            end
        end
    end.
Proof.
  cbn [conversation_files].
  destruct (dict_get voice_map c) as [voice|]; [|reflexivity].
  rewrite save_temp_audio_spec. unfold from_mp3, os_unlink. cbv zeta.
  rewrite !lookup_insert_eq.
  destruct (decode_mp3 m (cat (audio_stream m i text voice))) as [ms|]; [|reflexivity].
  rewrite (delete_insert_id _ _ _ (mktemp_unused fs)).
  destruct (failure_of _) as [pause|f]; [|reflexivity].
  destruct (conversation_files m voice_map pause_mean pause_stdev (S i) rest _ fs)
    as [[o t] fs']. reflexivity.
Qed.

Lemma failure_of_pause (pause_mean pause_stdev : Z) (z : spec_float) (f : failure) :
  failure_of (pause_duration pause_mean pause_stdev z) = inr f ->
  exists e, f = PyExn e.
Proof.
  destruct (pause_duration pause_mean pause_stdev z) as [p|e|n] eqn:E; simpl.
  - discriminate.
  - intros [= <-]. eauto.
  - exfalso. exact (pause_duration_no_exit _ _ _ _ E).
Qed.

(** What the loop leaves in the temporary directory, by the way it ends. *)
Lemma conversation_files_dir (m : Media) (voice_map : dict) (pause_mean pause_stdev : Z)
      (dialogue : list (string * string)) (fs : gmap string string) :
  forall (i : nat) (conversation : AudioSegment),
    let r := conversation_files m voice_map pause_mean pause_stdev i dialogue
               conversation fs in
    match fst (fst r) with
    | inl _ | inr (PyExn _) => snd r = fs
    | inr CouldntDecodeError =>
        exists j c text voice,
          dialogue !! j = Some (c, text)
          /\ dict_get voice_map c = Some voice
          /\ decode_mp3 m (cat (audio_stream m (i + j) text voice)) = None
          /\ snd r = <[mktemp (dom fs) := cat (audio_stream m (i + j) text voice)]> fs
          /\ length (snd (fst r)) = S j
    | inr _ => False
    end.
Proof.
  induction dialogue as [|[c text] rest IH]; intros i conv; cbv zeta.
  - reflexivity.
  - rewrite conversation_files_cons.
    destruct (dict_get voice_map c) as [voice|] eqn:Hvoice; [|reflexivity].
    cbv zeta.
    destruct (decode_mp3 m (cat (audio_stream m i text voice))) as [ms|] eqn:Hdec.
    + destruct (failure_of _) as [pause|f] eqn:Hp.
      * cbv zeta. simpl fst. simpl snd.
        specialize (IH (S i) (conv ++ [Speech text voice ms; Silence pause])%list).
        cbv zeta in IH.
        destruct (fst (fst (conversation_files m voice_map pause_mean pause_stdev
                              (S i) rest _ fs))) as [conv'|[e|n| |]]; try exact IH.
        destruct IH as (j & c' & text' & voice' & Hj & Hv & Hd & Hfs & Hlen).
        exists (S j), c', text', voice'.
        replace (i + S j) with (S i + j) by lia. simpl. rewrite Hlen. auto.
      * apply failure_of_pause in Hp as [e ->]. reflexivity.
    + simpl. exists 0, c, text, voice. rewrite Nat.add_0_r. auto.
Qed.

End TempFiles.

(** X13. The loop never leaves a temporary file behind when it returns a
    conversation or ends with a Python exception of the loop itself
    (KeyError for a missing speaker, or an error of the pause
    computation): the temporary directory is then exactly as it was found.
    The file it has just written is always there to be decoded and
    removed. *)
Theorem temp_files_removed `{TempNames} (m : Media) (voice_map : dict)
    (pause_mean pause_stdev : Z) (i : nat) (dialogue : list (string * string))
    (conversation : AudioSegment) (fs : gmap string string) :
  let r := conversation_files m voice_map pause_mean pause_stdev i dialogue
             conversation fs in
  (fst (fst r) <> inr CouldntDecodeError -> snd r = fs)
  /\ fst (fst r) <> inr FileNotFoundError.
Proof.
  cbv zeta.
  pose proof (conversation_files_dir m voice_map pause_mean pause_stdev dialogue fs
                i conversation) as Hdir. cbv zeta in Hdir.
  destruct (fst (fst (conversation_files m voice_map pause_mean pause_stdev i dialogue
                        conversation fs))) as [conv'|[e|n| |]].
  - split; [auto|discriminate].
  - split; [auto|discriminate].
  - contradiction.
  - contradiction.
  - split; [intros Hne; contradiction|discriminate].
Qed.

(** [temp_files_removed] on a concrete input. *)
Lemma temp_files_removed_witness :
  snd (conversation_files flaky_media [("Ann", "v0")] 200 0 0
         [("Ann", "Hello."); ("Bob", "Hi, Ann.")] [] {["notes.txt" := "keep"]})
  = {["notes.txt" := "keep"]}.
Proof.
  refine (proj1 (temp_files_removed flaky_media [("Ann", "v0")] 200 0 0
                   [("Ann", "Hello."); ("Bob", "Hi, Ann.")] []
                   {["notes.txt" := "keep"]}) _).
  vm_compute. discriminate.
Defined.

(** X14. When the audio of a line cannot be decoded, the loop stops there
    and the temporary file of that line stays in the directory: it is the
    one file added, under a name that was not in use, and it holds the
    whole stream of that line, chunk after chunk. The lines before it have
    been requested and their files removed. *)
Theorem undecodable_audio_leaves_file `{TempNames} (m : Media) (voice_map : dict)
    (pause_mean pause_stdev : Z) (i : nat) (dialogue : list (string * string))
    (conversation : AudioSegment) (fs : gmap string string) :
  let r := conversation_files m voice_map pause_mean pause_stdev i dialogue
             conversation fs in
  fst (fst r) = inr CouldntDecodeError ->
  exists j c text voice,
    dialogue !! j = Some (c, text)
    /\ dict_get voice_map c = Some voice
    /\ decode_mp3 m (cat (audio_stream m (i + j) text voice)) = None
    /\ fs !! mktemp (dom fs) = None
    /\ snd r = <[mktemp (dom fs) := cat (audio_stream m (i + j) text voice)]> fs
    /\ length (snd (fst r)) = S j.
Proof.
  cbv zeta. intros Hfail.
  pose proof (conversation_files_dir m voice_map pause_mean pause_stdev dialogue fs
                i conversation) as Hdir. cbv zeta in Hdir.
  rewrite Hfail in Hdir.
  destruct Hdir as (j & c & text & voice & Hj & Hv & Hd & Hfs & Hlen).
  exists j, c, text, voice. pose proof (mktemp_unused fs). auto 10.
Qed.

(** [undecodable_audio_leaves_file] on a concrete input. *)
Lemma undecodable_audio_leaves_file_witness :
  exists j c text voice,
    [("Ann", "Hello."); ("Bob", "Hi, Ann.")] !! j = Some (c, text)
    /\ dict_get [("Ann", "v0"); ("Bob", "v1")] c = Some voice
    /\ decode_mp3 flaky_media (cat (audio_stream flaky_media (0 + j) text voice)) = None
    /\ (∅ : gmap string string) !! mktemp (dom (∅ : gmap string string)) = None
    /\ snd (conversation_files flaky_media [("Ann", "v0"); ("Bob", "v1")] 200 0 0
              [("Ann", "Hello."); ("Bob", "Hi, Ann.")] [] ∅)
       = <[mktemp (dom (∅ : gmap string string))
           := cat (audio_stream flaky_media (0 + j) text voice)]> ∅
    /\ length (snd (fst (conversation_files flaky_media [("Ann", "v0"); ("Bob", "v1")]
                           200 0 0 [("Ann", "Hello."); ("Bob", "Hi, Ann.")] [] ∅)))
       = S j.
Proof.
  refine (undecodable_audio_leaves_file flaky_media [("Ann", "v0"); ("Bob", "v1")]
            200 0 0 [("Ann", "Hello."); ("Bob", "Hi, Ann.")] [] ∅ _).
  vm_compute. reflexivity.
Defined.

(** The loop with files agrees with the loop without them. *)
Lemma conversation_files_erase `{TempNames} (m : Media) (voice_map : dict)
      (pause_mean pause_stdev : Z) (dialogue : list (string * string))
      (fs : gmap string string) :
  forall (i : nat) (conversation : AudioSegment),
    let r := conversation_files m voice_map pause_mean pause_stdev i dialogue
               conversation fs in
    match fst (fst r) with
    | inl conversation' =>
        conversation_from (media_env m) voice_map pause_mean pause_stdev i dialogue
                          conversation
        = (Return conversation', snd (fst r))
    | inr (PyExn e) =>
        conversation_from (media_env m) voice_map pause_mean pause_stdev i dialogue
                          conversation
        = (Raise e, snd (fst r))
    | inr _ => True
    end.
Proof.
  induction dialogue as [|[c text] rest IH]; intros i conv; cbv zeta.
  - reflexivity.
  - rewrite conversation_files_cons, conversation_from_cons.
    destruct (dict_get voice_map c) as [voice|] eqn:Hvoice; [|reflexivity].
    cbv zeta.
    destruct (decode_mp3 m (cat (audio_stream m i text voice))) as [ms|] eqn:Hdec;
      [|exact I].
    change (gauss (media_env m) i) with (normal_draw m i).
    change (synth_ms (media_env m) i text voice)
      with (default 0%Z (decode_mp3 m (cat (audio_stream m i text voice)))).
    rewrite Hdec. simpl default.
    destruct (pause_duration pause_mean pause_stdev (normal_draw m i)) as [p|e|n] eqn:Hp;
      simpl failure_of; cbv iota.
    + cbv zeta. simpl fst. simpl snd.
      specialize (IH (S i) (conv ++ [Speech text voice ms; Silence p])%list).
      cbv zeta in IH.
      destruct (fst (fst (conversation_files m voice_map pause_mean pause_stdev
                            (S i) rest _ fs))) as [conv'|[e|n| |]];
        try exact I; rewrite IH; reflexivity.
    + reflexivity.
    + exact I.
Qed.

(** X15. The temporary files do not change what the loop computes: when
    the loop with files returns a conversation or raises a Python
    exception, the loop of [create_conversation_audio] as modelled without
    files, fed with the lengths of the decoded streams, returns the same
    conversation or raises the same exception after the same requests. And
    when every stream of the provider decodes, the loop with files ends in
    no other way. *)
Theorem files_do_not_change_assembly `{TempNames} (m : Media) (voice_map : dict)
    (pause_mean pause_stdev : Z) (dialogue : list (string * string))
    (fs : gmap string string) :
  let r := conversation_files m voice_map pause_mean pause_stdev 0 dialogue
             empty_segment fs in
  let coarse := create_conversation_audio (media_env m) dialogue voice_map
                  pause_mean pause_stdev in
  (forall conversation, fst (fst r) = inl conversation ->
     coarse = (Return conversation, snd (fst r)))
  /\ (forall e, fst (fst r) = inr (PyExn e) -> coarse = (Raise e, snd (fst r)))
  /\ ((forall i text voice,
         is_Some (decode_mp3 m (cat (audio_stream m i text voice)))) ->
      (exists conversation, fst (fst r) = inl conversation)
      \/ (exists e, fst (fst r) = inr (PyExn e))).
Proof.
  cbv zeta. unfold create_conversation_audio.
  pose proof (conversation_files_erase m voice_map pause_mean pause_stdev dialogue fs
                0 empty_segment) as Herase.
  pose proof (conversation_files_dir m voice_map pause_mean pause_stdev dialogue fs
                0 empty_segment) as Hdir.
  cbv zeta in Herase, Hdir.
  destruct (fst (fst (conversation_files m voice_map pause_mean pause_stdev 0 dialogue
                        empty_segment fs))) as [conv'|[e|n| |]].
  - split; [intros ? [= <-]; exact Herase|]. split; [discriminate|]. eauto.
  - split; [discriminate|]. split; [intros ? [= <-]; exact Herase|]. eauto.
  - contradiction.
  - contradiction.
  - split; [discriminate|]. split; [discriminate|].
    intros Hdec. exfalso.
    destruct Hdir as (j & c & text & voice & _ & _ & Hnone & _).
    destruct (Hdec (0 + j) text voice) as [ms Hms]. congruence.
Qed.

(** [files_do_not_change_assembly] on a concrete input. *)
Lemma files_do_not_change_assembly_witness :
  create_conversation_audio (media_env flaky_media) [("Ann", "Hello.")]
    [("Ann", "v0")] 200 0
  = (Return [Speech "Hello." "v0" 1000; Silence 200], [Generate "Hello." "v0"]).
Proof.
  refine (proj1 (files_do_not_change_assembly flaky_media [("Ann", "v0")] 200 0
                   [("Ann", "Hello.")] ∅)
            [Speech "Hello." "v0" 1000; Silence 200] _).
  vm_compute. reflexivity.
Defined.

(** ** Integers as binary64 *)

Lemma digits2_pos_lower (p : positive) : (2 ^ (Zpos (digits2_pos p) - 1) <= Zpos p)%Z.
Proof.
  induction p as [p IH|p IH|]; simpl digits2_pos.
  - rewrite Pos2Z.inj_succ. replace (Z.succ (Zpos (digits2_pos p)) - 1)%Z
      with (Z.succ (Zpos (digits2_pos p) - 1))%Z by lia.
    rewrite Z.pow_succ_r by lia. lia.
  - rewrite Pos2Z.inj_succ. replace (Z.succ (Zpos (digits2_pos p)) - 1)%Z
      with (Z.succ (Zpos (digits2_pos p) - 1))%Z by lia.
    rewrite Z.pow_succ_r by lia. lia.
  - simpl. lia.
Qed.

Lemma digits2_pos_small (p : positive) :
  (Zpos p < 2 ^ 53)%Z -> (Zpos (digits2_pos p) <= 53)%Z.
Proof.
  intros Hp. pose proof (digits2_pos_lower p) as Hlow.
  destruct (Z.le_gt_cases (Zpos (digits2_pos p)) 53) as [|Hgt]; [assumption|].
  exfalso.
  assert (2 ^ 53 <= 2 ^ (Zpos (digits2_pos p) - 1))%Z by (apply Z.pow_le_mono_r; lia).
  lia.
Qed.

Lemma iter_xO (p k : positive) :
  digits2_pos (Pos.iter xO p k) = (digits2_pos p + k)%positive
  /\ Zpos (Pos.iter xO p k) = (Zpos p * 2 ^ Zpos k)%Z.
Proof.
  induction k as [|k [IHd IHv]] using Pos.peano_ind.
  - simpl. split; [lia|lia].
  - rewrite Pos.iter_succ. simpl digits2_pos. rewrite IHd. split; [lia|].
    rewrite Pos2Z.inj_xO, IHv, Pos2Z.inj_succ, Z.pow_succ_r by lia. lia.
Qed.

(** A mantissa of 53 bits with an exponent in range is kept as it is. *)
Lemma binary_round_aux_exact (s : bool) (m : positive) (e : Z) :
  Zpos (digits2_pos m) = 53%Z -> (-1074 <= e <= 971)%Z ->
  binary_round_aux F64.prec F64.emax s (Zpos m) e loc_Exact = S754_finite s m e.
Proof.
  intros Hd He.
  assert (Hshift : forall l,
             shr_fexp F64.prec F64.emax (Zpos m) e l
             = (shr_record_of_loc (Zpos m) l, e)).
  { intros l. unfold shr_fexp, fexp, emin, F64.prec, F64.emax, Zdigits2.
    rewrite Hd.
    replace (Z.sub (Z.max (Z.sub (Z.add 53 e) 53) (Z.sub (Z.sub 3 1024) 53)) e)
      with 0%Z by lia.
    reflexivity. }
  unfold binary_round_aux. rewrite Hshift. simpl shr_m. simpl loc_of_shr_record.
  simpl round_nearest_even. rewrite Hshift. simpl shr_m.
  unfold F64.prec, F64.emax.
  destruct (Z.leb_spec e (1024 - 53)) as [_|Hbad]; [reflexivity|lia].
Qed.

(** [float(n)] is exact below 2^53 and [int] gives [n] back. *)
Lemma of_int_exact (n : Z) :
  (- 2 ^ 53 < n < 2 ^ 53)%Z ->
  exists f, F64.of_int n = Return f /\ F64.to_int f = Return n
            /\ (n <> 0%Z -> exists s m e, f = S754_finite s m e)
            /\ (n = 0%Z -> f = S754_zero false).
Proof.
  intros Hn. unfold F64.of_int.
  destruct n as [|p|p]; simpl binary_normalize.
  - exists (S754_zero false). split; [reflexivity|]. split; [reflexivity|].
    split; [congruence|reflexivity].
  - assert (Hd := digits2_pos_small p ltac:(lia)).
    assert (Hr : exists m e,
               binary_round F64.prec F64.emax false p 0 = S754_finite false m e
               /\ F64.to_int (S754_finite false m e) = Return (Zpos p)).
    { unfold binary_round, shl_align, fexp, emin, F64.prec, F64.emax.
      replace (Z.sub (Z.max (Z.sub (Z.add (Zpos (digits2_pos p)) 0) 53)
                            (Z.sub (Z.sub 3 1024) 53)) 0)
        with (Zpos (digits2_pos p) - 53)%Z by lia.
      replace (Z.max (Z.sub (Z.add (Zpos (digits2_pos p)) 0) 53)
                     (Z.sub (Z.sub 3 1024) 53))
        with (Zpos (digits2_pos p) - 53)%Z by lia.
      destruct (Zpos (digits2_pos p) - 53)%Z as [|k|k] eqn:Ek; [|lia|].
      - exists p, 0%Z. split.
        + apply (binary_round_aux_exact false p 0); lia.
        + reflexivity.
      - destruct (iter_xO p k) as [Hdk Hvk].
        exists (Pos.iter xO p k), (Zneg k). split.
        + apply (binary_round_aux_exact false (Pos.iter xO p k) (Zneg k)); [|lia].
          rewrite Hdk. lia.
        + simpl F64.to_int. rewrite Z.shiftr_div_pow2 by lia.
          rewrite Hvk, Z.div_mul by (apply Z.pow_nonzero; lia). reflexivity. }
    destruct Hr as (m & e & -> & Hint).
    exists (S754_finite false m e). split; [reflexivity|]. split; [exact Hint|].
    split; [eauto|discriminate].
  - assert (Hd := digits2_pos_small p ltac:(lia)).
    assert (Hr : exists m e,
               binary_round F64.prec F64.emax true p 0 = S754_finite true m e
               /\ F64.to_int (S754_finite true m e) = Return (Zneg p)).
    { unfold binary_round, shl_align, fexp, emin, F64.prec, F64.emax.
      replace (Z.sub (Z.max (Z.sub (Z.add (Zpos (digits2_pos p)) 0) 53)
                            (Z.sub (Z.sub 3 1024) 53)) 0)
        with (Zpos (digits2_pos p) - 53)%Z by lia.
      replace (Z.max (Z.sub (Z.add (Zpos (digits2_pos p)) 0) 53)
                     (Z.sub (Z.sub 3 1024) 53))
        with (Zpos (digits2_pos p) - 53)%Z by lia.
      destruct (Zpos (digits2_pos p) - 53)%Z as [|k|k] eqn:Ek; [|lia|].
      - exists p, 0%Z. split.
        + apply (binary_round_aux_exact true p 0); lia.
        + reflexivity.
      - destruct (iter_xO p k) as [Hdk Hvk].
        exists (Pos.iter xO p k), (Zneg k). split.
        + apply (binary_round_aux_exact true (Pos.iter xO p k) (Zneg k)); [|lia].
          rewrite Hdk. lia.
        + simpl F64.to_int. rewrite Z.shiftr_div_pow2 by lia.
          rewrite Hvk, Z.div_mul by (apply Z.pow_nonzero; lia). reflexivity. }
    destruct Hr as (m & e & -> & Hint).
    exists (S754_finite true m e). split; [reflexivity|]. split; [exact Hint|].
    split; [eauto|discriminate].
Qed.

(** With a zero deviation the pause is the mean, clamped at zero. *)
Lemma pause_duration_zero_deviation (mean : Z) (z : spec_float) :
  (- 2 ^ 53 < mean < 2 ^ 53)%Z -> F64.is_finite z = true ->
  pause_duration mean 0 z = Return (Z.max 0 mean).
Proof.
  intros Hmean Hz. unfold pause_duration, np_random_normal.
  destruct (of_int_exact mean Hmean) as (f & Hf & Hint & Hfin & Hzero).
  rewrite Hf. change (F64.of_int 0) with (Return (S754_zero false)).
  cbn [obind F64.signbit].
  assert (Hsum : exists f', SFadd F64.prec F64.emax f
                              (SFmul F64.prec F64.emax (S754_zero false) z) = f'
                            /\ F64.to_int f' = Return mean).
  { destruct (Z.eq_dec mean 0%Z) as [->|Hne].
    - rewrite (Hzero eq_refl).
      destruct z as [s|s| |s m e]; try discriminate; destruct s; eexists; split;
        reflexivity.
    - destruct (Hfin Hne) as (s & m & e & ->).
      exists (S754_finite s m e). split; [|exact Hint].
      destruct z as [s'|s'| |s' m' e']; try discriminate; reflexivity. }
  destruct Hsum as (f' & -> & Hint'). cbn [obind]. rewrite Hint'. reflexivity.
Qed.

(** X16. With a deviation of zero the random draw does not matter: for
    every mean below 2^53 in magnitude the pause computed for each line is
    the mean itself, or zero for a negative mean, so in a returned
    conversation every line is followed by a silence asked for with exactly
    that duration. *)
Theorem zero_deviation_pauses (env : Env) (dialogue : list (string * string))
    (voice_map : dict) (pause_mean : Z) (conversation : AudioSegment) :
  (- 2 ^ 53 < pause_mean < 2 ^ 53)%Z ->
  (forall i, F64.is_finite (gauss env i) = true) ->
  fst (create_conversation_audio env dialogue voice_map pause_mean 0)
  = Return conversation ->
  (forall i, pause_duration pause_mean 0 (gauss env i) = Return (Z.max 0 pause_mean))
  /\ (forall ms, Silence ms ∈ conversation -> ms = Z.max 0 pause_mean)
  /\ exists lines,
       conversation = interleave lines
       /\ length lines = length dialogue
       /\ Forall (fun sp => snd sp = Z.max 0 pause_mean) lines.
Proof.
  intros Hmean Hfin Hrun.
  assert (Hpause : forall i, pause_duration pause_mean 0 (gauss env i)
                             = Return (Z.max 0 pause_mean))
    by (intros i; apply pause_duration_zero_deviation; auto).
  split; [exact Hpause|].
  apply conversation_from_spec in Hrun as (lines & Hlines & ->).
  simpl app. split.
  - intros ms Hin.
    destruct (silence_in_assembled _ _ _ _ _ _ _ _ Hlines Hin) as [j Hp].
    rewrite Hpause in Hp. congruence.
  - exists lines. split; [reflexivity|]. destruct Hlines as [Hlen Hlines].
    split; [exact Hlen|].
    apply Forall_lookup. intros j [s p] Hj.
    assert (Hlt : j < length dialogue).
    { rewrite <- Hlen. apply lookup_lt_is_Some. eauto. }
    apply lookup_lt_is_Some in Hlt as [[c text] Hd].
    destruct (Hlines j c text Hd) as (voice & p' & _ & Hp & Hj').
    rewrite Hj in Hj'. injection Hj' as -> ->.
    rewrite Hpause in Hp. injection Hp as <-. reflexivity.
Qed.

(** [zero_deviation_pauses] on a concrete input. *)
Lemma zero_deviation_pauses_witness :
  pause_duration (-40) 0 (gauss two_lines_env 1) = Return (Z.max 0 (-40)).
Proof.
  refine (proj1 (zero_deviation_pauses two_lines_env two_lines
                   [("Ann", "v0"); ("Bob", "v1")] (-40)
                   [Speech "Hello." "v0" 1000; Silence 0;
                    Speech "Hi, Ann." "v1" 1500; Silence 0] _ _ _) 1).
  - split; reflexivity.
  - intros i. reflexivity.
  - vm_compute. reflexivity.
Defined.

(** ** Blanks around a line *)

Lemma lstrip_all_spaces (s : string) :
  Str.all Chars.isspace s = true -> Str.lstrip s = "".
Proof.
  induction s as [|c s IH]; [reflexivity|]. simpl.
  rewrite andb_true_iff. intros [-> Hs]. auto.
Qed.

Lemma lstrip_app (s t : string) :
  Str.lstrip (s ++ t)
  = if Str.all Chars.isspace s then Str.lstrip t else Str.lstrip s ++ t.
Proof.
  induction s as [|c s IH]; [reflexivity|].
  rewrite app_cons. simpl. destruct (Chars.isspace c); [exact IH|reflexivity].
Qed.

Lemma rstrip_app_spaces (s trail : string) :
  Str.all Chars.isspace trail = true -> Str.rstrip (s ++ trail) = Str.rstrip s.
Proof.
  intros Ht. induction s as [|c s IH]; [apply rstrip_spaces, Ht|].
  rewrite app_cons. simpl. rewrite IH. reflexivity.
Qed.

Lemma strip_blanks (lead line trail : string) :
  Str.all Chars.isspace lead = true -> Str.all Chars.isspace trail = true ->
  Str.strip (lead ++ line ++ trail) = Str.strip line.
Proof.
  intros Hl Ht. unfold Str.strip.
  rewrite (lstrip_spaces _ _ Hl), lstrip_app.
  destruct (Str.all Chars.isspace line) eqn:Hline.
  - rewrite (lstrip_all_spaces _ Ht), (lstrip_all_spaces _ Hline). reflexivity.
  - apply rstrip_app_spaces, Ht.
Qed.

(** X17. Blanks before and after a line never change what the line parses
    to: the loop of the parser treats an indented or padded line exactly
    as the bare line, whether it matches or not. *)
Theorem surrounding_blanks_ignored {T : Type} `{PySet T}
    (acc : list (string * string) * T) (lead line trail : string) :
  Str.all Chars.isspace lead = true -> Str.all Chars.isspace trail = true ->
  parse_line acc (lead ++ line ++ trail) = parse_line acc line.
Proof.
  intros Hl Ht. unfold parse_line. rewrite (strip_blanks _ _ _ Hl Ht). reflexivity.
Qed.

(** [surrounding_blanks_ignored] on a concrete input. *)
Lemma surrounding_blanks_ignored_witness :
  parse_line (T:=gset string) ([], ∅) ("   " ++ "Ann: Hello." ++ "  ")
  = parse_line (T:=gset string) ([], ∅) "Ann: Hello.".
Proof.
  refine (surrounding_blanks_ignored (T:=gset string) ([], ∅) "   " "Ann: Hello." "  " _ _);
    reflexivity.
Defined.
